(** * Multi-agent coordinator of DuckBot-DE: a shallow embedding

    Source: [src/duckbot-desktop-services/multi-agent-coordinator.py].

    Conventions of the embedding.
    - Python [float] values (load factors, rates, durations, timestamps,
      scores) are exact rationals [Q]; equalities between them are stated
      with [==].
    - [self.agents] is a dict iterated in insertion order: it is the list of
      its values.  [self.tasks] and [self.collaborations] are only looked up
      by key: they are [gmap]s.
    - [set(...)] over capability tags is a [gset string].
    - A [str] is held as its UTF-8 bytes; [len], [strip] and [lstrip] work
      on the characters these bytes encode.
    - The task [context] is the JSON object supplied by the caller, read at
      its recognised keys with [dict.get(key, default)]; a missing key is the
      default value.
    - External collaborators (SQLite, the AI backend, the clock, uuid4) are an
      oracle [Env], one answer per call site. *)

From Stdlib Require Import QArith Qminmax Lia Lqa Ascii String NArith.
From stdpp Require Import gmap strings list pretty.

Set Warnings "-clear-no-such-hyp".

(** ** Enumerations *)

Inductive AgentType :=
  | RESEARCH | DEVELOPMENT | AUTOMATION | ANALYSIS
  | COMMUNICATION | CREATIVE | SYSTEM | COORDINATION.

Inductive TaskPriority := LOW | MEDIUM | HIGH | CRITICAL | EMERGENCY.

Inductive TaskStatus :=
  | PENDING | ASSIGNED | IN_PROGRESS | WAITING | COMPLETED | FAILED | CANCELLED.

#[global] Instance AgentType_eq_dec : EqDecision AgentType.
Proof. solve_decision. Defined.
#[global] Instance TaskPriority_eq_dec : EqDecision TaskPriority.
Proof. solve_decision. Defined.
#[global] Instance TaskStatus_eq_dec : EqDecision TaskStatus.
Proof. solve_decision. Defined.

(** [AgentType.value] *)
Definition AgentType_value (ty : AgentType) : string :=
  match ty with
  | RESEARCH => "research" | DEVELOPMENT => "development"
  | AUTOMATION => "automation" | ANALYSIS => "analysis"
  | COMMUNICATION => "communication" | CREATIVE => "creative"
  | SYSTEM => "system" | COORDINATION => "coordination"
  end.

(** [TaskPriority.value] and the constructor call [TaskPriority(n)], which
    raises [ValueError] (here [None]) outside 1..5. *)
Definition TaskPriority_value (p : TaskPriority) : Z :=
  match p with
  | LOW => 1 | MEDIUM => 2 | HIGH => 3 | CRITICAL => 4 | EMERGENCY => 5
  end.

Definition TaskPriority_of_value (n : Z) : option TaskPriority :=
  if (n =? 1)%Z then Some LOW
  else if (n =? 2)%Z then Some MEDIUM
  else if (n =? 3)%Z then Some HIGH
  else if (n =? 4)%Z then Some CRITICAL
  else if (n =? 5)%Z then Some EMERGENCY
  else None.

(** ** Records *)

Record Agent := mkAgent {
  agent_id : string;
  agent_type : AgentType;
  agent_name : string;
  agent_description : string;
  capabilities : list string;
  specializations : list string;
  current_task : option string;
  agent_status : string;
  load_factor : Q;
  success_rate : Q;
  last_active : Q;
  total_tasks_completed : Z;
  average_completion_time : Q;
  preferred_models : list string;
  resource_requirements : list (string * string)
}.

(** The recognised keys of [Task.context]. *)
Record Context := mkContext {
  required_capabilities : list string;
  ctx_specializations : list string;
  estimated_subtasks : Q
}.

(** [{}] *)
Definition empty_context : Context := mkContext [] [] 0.

(** What the AI backend hands back in the ["result"] key of a reply. *)
Inductive Payload :=
  | PContent (content : string)
  | POpaque (data : string).

(** A reply dict of [duckbot_ai.enhanced_request]; [_execute_subtask] builds
    the same shape for a captured exception. *)
Record Response := mkResponse {
  resp_success : bool;
  resp_result : option Payload;
  resp_error : option string
}.

(** One element of what [asyncio.gather(..., return_exceptions=True)] gives. *)
Inductive Gathered :=
  | GValue (r : Response)
  | GException (msg : string).

(** The value under the ["result"] key of a task result. *)
Inductive ResultValue :=
  | RVPayload (p : Payload)
  | RVError (msg : string).

(** The dicts returned by the execution functions and stored in
    [Task.result]: every key is optional. *)
Record ResultDict := mkResultDict {
  rd_success : option bool;
  rd_result : option ResultValue;
  rd_error : option string;
  rd_agent_id : option string;
  rd_execution_type : option string;
  rd_collaboration_id : option string;
  rd_participating_agents : option (list string);
  rd_subtask_results : option (list Gathered)
}.

Definition empty_result : ResultDict :=
  mkResultDict None None None None None None None None.

Record Task := mkTask {
  task_id : string;
  title : string;
  description : string;
  task_type : string;
  priority : TaskPriority;
  status : TaskStatus;
  created_at : Q;
  updated_at : Q;
  assigned_agent : option string;
  parent_task : option string;
  subtasks : option (list string);
  dependencies : option (list string);
  context : Context;
  result : option ResultDict;
  error_message : option string;
  estimated_duration : Q;
  actual_duration : option Q;
  deadline : option Q
}.

(** ** Field assignments ([obj.field = v]) *)

Definition set_status (v : TaskStatus) (t : Task) : Task :=
  mkTask (task_id t) (title t) (description t) (task_type t) (priority t) v
    (created_at t) (updated_at t) (assigned_agent t) (parent_task t)
    (subtasks t) (dependencies t) (context t) (result t) (error_message t)
    (estimated_duration t) (actual_duration t) (deadline t).

Definition set_updated_at (v : Q) (t : Task) : Task :=
  mkTask (task_id t) (title t) (description t) (task_type t) (priority t)
    (status t) (created_at t) v (assigned_agent t) (parent_task t)
    (subtasks t) (dependencies t) (context t) (result t) (error_message t)
    (estimated_duration t) (actual_duration t) (deadline t).

Definition set_assigned_agent (v : option string) (t : Task) : Task :=
  mkTask (task_id t) (title t) (description t) (task_type t) (priority t)
    (status t) (created_at t) (updated_at t) v (parent_task t)
    (subtasks t) (dependencies t) (context t) (result t) (error_message t)
    (estimated_duration t) (actual_duration t) (deadline t).

Definition set_result (v : option ResultDict) (t : Task) : Task :=
  mkTask (task_id t) (title t) (description t) (task_type t) (priority t)
    (status t) (created_at t) (updated_at t) (assigned_agent t) (parent_task t)
    (subtasks t) (dependencies t) (context t) v (error_message t)
    (estimated_duration t) (actual_duration t) (deadline t).

Definition set_error_message (v : option string) (t : Task) : Task :=
  mkTask (task_id t) (title t) (description t) (task_type t) (priority t)
    (status t) (created_at t) (updated_at t) (assigned_agent t) (parent_task t)
    (subtasks t) (dependencies t) (context t) (result t) v
    (estimated_duration t) (actual_duration t) (deadline t).

Definition set_actual_duration (v : option Q) (t : Task) : Task :=
  mkTask (task_id t) (title t) (description t) (task_type t) (priority t)
    (status t) (created_at t) (updated_at t) (assigned_agent t) (parent_task t)
    (subtasks t) (dependencies t) (context t) (result t) (error_message t)
    (estimated_duration t) v (deadline t).

Definition set_current_task (v : option string) (a : Agent) : Agent :=
  mkAgent (agent_id a) (agent_type a) (agent_name a) (agent_description a)
    (capabilities a) (specializations a) v (agent_status a) (load_factor a)
    (success_rate a) (last_active a) (total_tasks_completed a)
    (average_completion_time a) (preferred_models a) (resource_requirements a).

Definition set_agent_status (v : string) (a : Agent) : Agent :=
  mkAgent (agent_id a) (agent_type a) (agent_name a) (agent_description a)
    (capabilities a) (specializations a) (current_task a) v (load_factor a)
    (success_rate a) (last_active a) (total_tasks_completed a)
    (average_completion_time a) (preferred_models a) (resource_requirements a).

Definition set_load_factor (v : Q) (a : Agent) : Agent :=
  mkAgent (agent_id a) (agent_type a) (agent_name a) (agent_description a)
    (capabilities a) (specializations a) (current_task a) (agent_status a) v
    (success_rate a) (last_active a) (total_tasks_completed a)
    (average_completion_time a) (preferred_models a) (resource_requirements a).

Definition set_success_rate (v : Q) (a : Agent) : Agent :=
  mkAgent (agent_id a) (agent_type a) (agent_name a) (agent_description a)
    (capabilities a) (specializations a) (current_task a) (agent_status a)
    (load_factor a) v (last_active a) (total_tasks_completed a)
    (average_completion_time a) (preferred_models a) (resource_requirements a).

Definition set_last_active (v : Q) (a : Agent) : Agent :=
  mkAgent (agent_id a) (agent_type a) (agent_name a) (agent_description a)
    (capabilities a) (specializations a) (current_task a) (agent_status a)
    (load_factor a) (success_rate a) v (total_tasks_completed a)
    (average_completion_time a) (preferred_models a) (resource_requirements a).

Definition set_total_tasks_completed (v : Z) (a : Agent) : Agent :=
  mkAgent (agent_id a) (agent_type a) (agent_name a) (agent_description a)
    (capabilities a) (specializations a) (current_task a) (agent_status a)
    (load_factor a) (success_rate a) (last_active a) v
    (average_completion_time a) (preferred_models a) (resource_requirements a).

Definition set_average_completion_time (v : Q) (a : Agent) : Agent :=
  mkAgent (agent_id a) (agent_type a) (agent_name a) (agent_description a)
    (capabilities a) (specializations a) (current_task a) (agent_status a)
    (load_factor a) (success_rate a) (last_active a) (total_tasks_completed a)
    v (preferred_models a) (resource_requirements a).

(** ** Numbers and sets *)

(** [x < y] on floats. *)
Definition Qlt_bool (x y : Q) : bool := negb (Qle_bool y x).

(** [len(s)] as a float operand. *)
Definition Qof_nat (n : nat) : Q := inject_Z (Z.of_nat n).

(** [self.config] *)
Definition max_agents_per_task : nat := 5.
Definition load_balance_threshold : Q := 0.8.

(** [len(set(xs) & set(ys))] *)
Definition overlap_count (xs ys : list string) : nat :=
  size ((list_to_set xs : gset string) ∩ list_to_set ys).

(** [len(set(xs))] *)
Definition distinct_count (xs : list string) : nat :=
  size (list_to_set xs : gset string).

(** ** Agent selection *)

(** The local dict [task_type_mapping] of [_agent_can_handle_task]. *)
Definition task_type_mapping : gmap string (list AgentType) :=
  list_to_map
    [ ("research", [RESEARCH; ANALYSIS]);
      ("development", [DEVELOPMENT; AUTOMATION]);
      ("analysis", [ANALYSIS; RESEARCH]);
      ("automation", [AUTOMATION; SYSTEM]);
      ("communication", [COMMUNICATION; CREATIVE]);
      ("creative", [CREATIVE; COMMUNICATION]);
      ("system", [SYSTEM; AUTOMATION]) ].

Definition _agent_can_handle_task (agent : Agent) (task : Task) : bool :=
  let task_requirements := required_capabilities (context task) in
  if bool_decide (task_requirements ≠ []) then
    let overlap := overlap_count (capabilities agent) task_requirements in
    let coverage :=
      if bool_decide (distinct_count task_requirements ≠ 0%nat)
      then (Qof_nat overlap / Qof_nat (distinct_count task_requirements))%Q
      else 1%Q in
    Qle_bool 0.5 coverage
  else
    let suitable_types := default [] (task_type_mapping !! task_type task) in
    bool_decide (agent_type agent ∈ suitable_types)
    || bool_decide (agent_type agent = COORDINATION).

(** [now] is the reading of [time.time()] taken inside the call. *)
Definition _calculate_agent_score (now : Q) (agent : Agent) (task : Task) : Q :=
  let score := 0%Q in
  let score := (score + success_rate agent * 30)%Q in
  let score := (score + (1 - load_factor agent) * 20)%Q in
  let task_capabilities := required_capabilities (context task) in
  let score :=
    if bool_decide (distinct_count task_capabilities ≠ 0%nat) then
      let overlap := overlap_count task_capabilities (capabilities agent) in
      let coverage := (Qof_nat overlap / Qof_nat (distinct_count task_capabilities))%Q in
      (score + coverage * 25)%Q
    else score in
  let task_specializations := ctx_specializations (context task) in
  let score :=
    if bool_decide (distinct_count task_specializations ≠ 0%nat) then
      let overlap := overlap_count task_specializations (specializations agent) in
      if bool_decide (0 < overlap)%nat then (score + Qof_nat overlap * 15)%Q else score
    else score in
  let time_since_active := (now - last_active agent)%Q in
  let score := if Qlt_bool time_since_active 3600 then (score + 10)%Q else score in
  let score :=
    if Qlt_bool 0 (average_completion_time agent) then
      if bool_decide (priority task ∈ [HIGH; CRITICAL; EMERGENCY]) then
        let speed_factor := Qmin 1 (300 / average_completion_time agent) in
        (score + speed_factor * 10)%Q
      else score
    else score in
  score.

(** The filter of the first loop of [_select_best_agent]. *)
Definition is_available (task : Task) (agent : Agent) : bool :=
  bool_decide (agent_status agent = "idle")
  && Qlt_bool (load_factor agent) load_balance_threshold
  && _agent_can_handle_task agent task.

(** The second loop: the [k]-th call of [_calculate_agent_score] reads the
    clock at [clock k]. *)
Fixpoint score_agents (clock : nat → Q) (k : nat) (task : Task)
    (available_agents : list Agent) : list (Agent * Q) :=
  match available_agents with
  | [] => []
  | agent :: rest =>
      (agent, _calculate_agent_score (clock k) agent task)
      :: score_agents clock (S k) task rest
  end.

(** [list.sort(key=lambda x: x[1], reverse=True)]: a stable sort, largest key
    first; elements with equal keys keep their order. *)
Fixpoint insert_desc (x : Agent * Q) (l : list (Agent * Q)) : list (Agent * Q) :=
  match l with
  | [] => [x]
  | y :: l' => if Qle_bool (snd y) (snd x) then x :: y :: l' else y :: insert_desc x l'
  end.

Fixpoint sort_desc (l : list (Agent * Q)) : list (Agent * Q) :=
  match l with
  | [] => []
  | x :: l' => insert_desc x (sort_desc l')
  end.

(** [agents] is [self.agents.values()].  The body sits in a [try] whose
    handler returns [None]; over a typed context nothing in it raises. *)
Definition _select_best_agent (clock : nat → Q) (agents : list Agent) (task : Task)
    : option Agent :=
  let available_agents := List.filter (is_available task) agents in
  match available_agents with
  | [] => None
  | _ =>
      let scored_agents := score_agents clock 0 task available_agents in
      match sort_desc scored_agents with
      | best :: _ => Some (fst best)
      | [] => None
      end
  end.

(** ** Text *)

(** The UTF-8 encoding of the character with code point [cp]: one to four
    bytes, the first one outside [10xxxxxx], the others inside. *)
Definition utf8_char (cp : N) : string :=
  (if cp <? 128 then
     String (ascii_of_N cp) EmptyString
   else if cp <? 2048 then
     String (ascii_of_N (192 + cp / 64))
       (String (ascii_of_N (128 + cp mod 64)) EmptyString)
   else if cp <? 65536 then
     String (ascii_of_N (224 + cp / 4096))
       (String (ascii_of_N (128 + (cp / 64) mod 64))
          (String (ascii_of_N (128 + cp mod 64)) EmptyString))
   else
     String (ascii_of_N (240 + cp / 262144))
       (String (ascii_of_N (128 + (cp / 4096) mod 64))
          (String (ascii_of_N (128 + (cp / 64) mod 64))
             (String (ascii_of_N (128 + cp mod 64)) EmptyString))))%N.

(** The [str] made of the characters [text]. *)
Fixpoint utf8 (text : list N) : string :=
  match text with
  | [] => EmptyString
  | cp :: rest => utf8_char cp +:+ utf8 rest
  end.

(** A byte [10xxxxxx]. *)
Definition is_continuation (c : ascii) : bool :=
  let n := N_of_ascii c in ((128 <=? n) && (n <? 192))%N.

(** [len(s)]: the number of characters, one per byte that starts one. *)
Fixpoint len (s : string) : nat :=
  match s with
  | EmptyString => 0%nat
  | String c s' => if is_continuation c then len s' else S (len s')
  end.

(** ** Collaboration routing *)

(** [str.lower()], as far as a test for an ASCII word can tell: the letters
    A-Z become a-z.  The characters beyond ASCII that [str.lower()] changes
    become characters beyond ASCII, but for U+0130, which becomes [i]
    followed by U+0307, and U+212A, which becomes [k]. *)
Definition lower_ascii (c : ascii) : ascii :=
  let n := nat_of_ascii c in
  if (65 <=? n)%nat && (n <=? 90)%nat then ascii_of_nat (n + 32) else c.

Fixpoint lower (s : string) : string :=
  match s with
  | EmptyString => EmptyString
  | String c s' => String (lower_ascii c) (lower s')
  end.

(** [s.startswith(p)] *)
Fixpoint startswith (p s : string) : bool :=
  match p, s with
  | EmptyString, _ => true
  | String _ _, EmptyString => false
  | String a p', String b s' => Ascii.eqb a b && startswith p' s'
  end.

(** [needle in hay] *)
Fixpoint contains (needle hay : string) : bool :=
  startswith needle hay
  || match hay with
     | EmptyString => false
     | String _ hay' => contains needle hay'
     end.

Definition complexity_indicators (task : Task) : list bool :=
  [ bool_decide (500 < len (description task))%nat;
    Qlt_bool 3 (estimated_subtasks (context task));
    bool_decide (3 < length (required_capabilities (context task)))%nat;
    bool_decide (priority task ∈ [HIGH; CRITICAL]);
    contains "collaboration" (lower (description task)) ].

(** [sum] of a list of booleans. *)
Definition sum_bools (l : list bool) : nat :=
  foldr (λ b n, (if b : bool then 1 else 0) + n)%nat 0%nat l.

Definition _task_requires_collaboration (task : Task) : bool :=
  bool_decide (2 ≤ sum_bools (complexity_indicators task))%nat.

(** ** Progress reporting *)

Definition _calculate_task_progress (now : Q) (task : Task) : Q :=
  match status task with
  | COMPLETED => 100
  | FAILED => 0
  | IN_PROGRESS =>
      let elapsed := (now - created_at task)%Q in
      if Qlt_bool 0 (estimated_duration task)
      then Qmin 90 ((elapsed / estimated_duration task) * 100)
      else 50
  | _ => 0
  end.

(** The JSON object serialised by [GetTaskStatus]. *)
Inductive StatusReply :=
  | ReplyStatus (reply_task_id : string) (reply_status : TaskStatus)
      (reply_assigned_agent : option string) (reply_progress : Q)
      (reply_result : option ResultDict)
  | ReplyError (error : string).

Definition GetTaskStatus (now : Q) (tasks : gmap string Task) (id : string)
    : StatusReply :=
  match tasks !! id with
  | Some task =>
      ReplyStatus id (status task) (assigned_agent task)
        (_calculate_task_progress now task) (result task)
  | None => ReplyError "Task not found"
  end.

(** ** Collaborations *)

(** One dict of ["available_agents"] in the decomposition request. *)
Record AgentInfo := mkAgentInfo {
  info_id : string;
  info_type : string;
  info_capabilities : list string;
  info_role : string
}.

(** The value under ["result"] of one integration entry:
    [result if not isinstance(result, Exception) else {"error": str(result)}]. *)
Inductive EntryValue :=
  | EntryResult (r : Response)
  | EntryError (msg : string).

Record IntegrationEntry := mkIntegrationEntry {
  entry_agent : string;
  entry_result : EntryValue
}.

(** The [context] argument of [enhanced_request], one shape per caller. *)
Inductive RequestContext :=
  | EnhancedContext (ctx : Context) (agent_capabilities agent_specializations : list string)
      (for_task for_agent : string)
  | DecompositionContext (task : Task) (available_agents : list AgentInfo)
  | SubtaskContext (subtask_description subtask_details agent_role : string)
      (agent_capabilities : list string)
  | IntegrationContext (original_task : string) (subtask_results : list IntegrationEntry).

Record Request := mkRequest {
  prompt : string;
  request_context : RequestContext;
  preferred_model : string
}.

Record LogEntry := mkLogEntry {
  log_timestamp : Q;
  log_type : string;
  log_content : RequestContext
}.

Record SharedContext := mkSharedContext {
  shared_original_task : Task;
  agent_roles : gmap string string
}.

Record Collaboration := mkCollaboration {
  collaboration_id : string;
  collab_title : string;
  participating_agents : list string;
  primary_agent : string;
  collab_task_id : string;
  collaboration_type : string;
  collab_status : string;
  collab_created_at : Q;
  completed_at : option Q;
  shared_context : SharedContext;
  communication_log : list LogEntry
}.

Definition set_collab_status (v : string) (c : Collaboration) : Collaboration :=
  mkCollaboration (collaboration_id c) (collab_title c) (participating_agents c)
    (primary_agent c) (collab_task_id c) (collaboration_type c) v
    (collab_created_at c) (completed_at c) (shared_context c) (communication_log c).

Definition set_completed_at (v : option Q) (c : Collaboration) : Collaboration :=
  mkCollaboration (collaboration_id c) (collab_title c) (participating_agents c)
    (primary_agent c) (collab_task_id c) (collaboration_type c) (collab_status c)
    (collab_created_at c) v (shared_context c) (communication_log c).

Definition set_communication_log (v : list LogEntry) (c : Collaboration) : Collaboration :=
  mkCollaboration (collaboration_id c) (collab_title c) (participating_agents c)
    (primary_agent c) (collab_task_id c) (collaboration_type c) (collab_status c)
    (collab_created_at c) (completed_at c) (shared_context c) v.

Record Subtask := mkSubtask {
  sub_description : string;
  sub_details : string
}.

(** ** What [json.dumps] refuses *)

(** Python values as [json.dumps] tells them apart. *)
#[warnings="-register-all"]
Inductive PyValue :=
  (** [None], a bool, a number, a str, or a list or dict of such values *)
  | PyJson
  (** a member of a class that derives from [Enum] alone *)
  | PyEnumMember (class_name : string)
  | PyDict (items : list (string * PyValue)).

(** The message of the [TypeError] that [json.dumps(v)] raises: the encoder
    walks the items in order and stops at the first value it cannot
    encode. *)
Fixpoint json_dumps_error (v : PyValue) : option string :=
  match v with
  | PyJson => None
  | PyEnumMember class_name =>
      Some ("Object of type " +:+ class_name +:+ " is not JSON serializable")
  | PyDict items =>
      (fix first (l : list (string * PyValue)) : option string :=
         match l with
         | [] => None
         | (_, x) :: rest =>
             match json_dumps_error x with
             | Some msg => Some msg
             | None => first rest
             end
         end) items
  end.

(** [asdict(task)]: the fields in the order of the dataclass; [priority] and
    [status] hold members of [TaskPriority] and [TaskStatus]. *)
Definition asdict_task (task : Task) : PyValue :=
  PyDict
    [ ("task_id", PyJson); ("title", PyJson); ("description", PyJson);
      ("task_type", PyJson);
      ("priority", PyEnumMember "TaskPriority");
      ("status", PyEnumMember "TaskStatus");
      ("created_at", PyJson); ("updated_at", PyJson);
      ("assigned_agent", PyJson); ("parent_task", PyJson);
      ("subtasks", PyJson); ("dependencies", PyJson); ("context", PyJson);
      ("result", PyJson); ("error_message", PyJson);
      ("estimated_duration", PyJson); ("actual_duration", PyJson);
      ("deadline", PyJson) ].

(** [collaboration.shared_context] as [_execute_collaborative_task] builds
    it. *)
Definition shared_context_value (sc : SharedContext) : PyValue :=
  PyDict
    [ ("original_task", asdict_task (shared_original_task sc));
      ("agent_roles", PyJson) ].

(** ** The outside world *)

(** Every statement that writes to SQLite. *)
Inductive DbSite :=
  | DbAssignTask | DbAssignAgent      (* _assign_task_to_agent *)
  | DbAssignFailed                    (* handler of _process_task_assignment *)
  | DbStartTask | DbStartAgent        (* _execute_task, before the work *)
  | DbMetric                          (* _update_agent_performance *)
  | DbFinalTask | DbFinalAgent        (* _execute_task, finally *)
  | DbCollabCreated | DbCollabLog | DbCollabCompleted.

(** Every call of [duckbot_ai.enhanced_request]. *)
Inductive AiSite :=
  | AiSingle
  | AiDecompose
  | AiSubtask (i : nat)
  | AiIntegrate.

(** Every reading of [time.time()] outside the scorer. *)
Inductive ClockSite :=
  | ClkAssign | ClkStart | ClkEnd | ClkEndFailed
  | ClkCollabCreated | ClkCollabLog | ClkCollabCompleted.

Inductive Outcome :=
  | Returns (r : Response)
  | Raises (msg : string).

Record Env := mkEnv {
  (** [None]: [self.duckbot_ai] is unset (the DuckBot core is not available) *)
  duckbot_ai : option (AiSite → Outcome);
  (** [Some msg]: the write raises [sqlite3.Error(msg)] *)
  db_error : DbSite → option string;
  time_time : ClockSite → Q;
  (** [str(uuid.uuid4())] drawn for the collaboration *)
  collaboration_uuid : string
}.

(** ** State and exceptions *)

Inductive Res (A : Type) :=
  | Ok (a : A)
  | Exc (msg : string).
Arguments Ok {A} a.
Arguments Exc {A} msg.

Definition SE (S A : Type) : Type := S → Res A * S.

Definition ret {S A} (a : A) : SE S A := λ s, (Ok a, s).

Definition bind {S A B} (c : SE S A) (k : A → SE S B) : SE S B :=
  λ s, match c s with
       | (Ok a, s') => k a s'
       | (Exc msg, s') => (Exc msg, s')
       end.

Definition raise {S A} (msg : string) : SE S A := λ s, (Exc msg, s).

Definition get {S} : SE S S := λ s, (Ok s, s).

Definition modify {S} (f : S → S) : SE S unit := λ s, (Ok tt, f s).

(** [try: c  except Exception as e: handler(str(e))] *)
Definition try_except {S A} (c : SE S A) (handler : string → SE S A) : SE S A :=
  λ s, match c s with
       | (Ok a, s') => (Ok a, s')
       | (Exc msg, s') => handler msg s'
       end.

(** [try: c  finally: final]; an exception of [final] replaces the outcome
    of [c]. *)
Definition try_finally {S A} (c : SE S A) (final : SE S unit) : SE S A :=
  λ s, match c s with
       | (r, s') =>
           match final s' with
           | (Ok _, s'') => (r, s'')
           | (Exc msg, s'') => (Exc msg, s'')
           end
       end.

Notation "'do' x <- c ; k" := (bind c (λ x, k))
  (at level 10, x name, c at level 100, k at level 200).
Notation "'run' c ; k" := (bind c (λ _, k))
  (at level 10, c at level 100, k at level 200).

(** What the collaboration code can change: [self.collaborations], and (as a
    record of what happened) the requests sent to the AI backend. *)
Record World := mkWorld {
  collaborations : gmap string Collaboration;
  requests : list (AiSite * Request)
}.

(** The objects [_execute_task] and [_assign_task_to_agent] mutate: the task,
    the agent, and the world; [status_history] records every value assigned
    to [task.status], oldest first. *)
Record Heap := mkHeap {
  h_task : Task;
  h_agent : Agent;
  status_history : list TaskStatus;
  h_world : World
}.

Definition modify_task (f : Task → Task) : SE Heap unit :=
  modify (λ h, mkHeap (f (h_task h)) (h_agent h) (status_history h) (h_world h)).

Definition modify_agent (f : Agent → Agent) : SE Heap unit :=
  modify (λ h, mkHeap (h_task h) (f (h_agent h)) (status_history h) (h_world h)).

(** [task.status = v] *)
Definition assign_status (v : TaskStatus) : SE Heap unit :=
  modify (λ h, mkHeap (set_status v (h_task h)) (h_agent h)
                 (status_history h ++ [v]) (h_world h)).

Definition get_task : SE Heap Task := λ h, (Ok (h_task h), h).
Definition get_agent : SE Heap Agent := λ h, (Ok (h_agent h), h).

(** Run code that only touches the world. *)
Definition lift {A} (c : SE World A) : SE Heap A :=
  λ h, match c (h_world h) with
       | (r, w) => (r, mkHeap (h_task h) (h_agent h) (status_history h) w)
       end.

(** ** Text helpers of [_parse_subtasks] *)

(** [str.split('\n')] *)
Fixpoint split_lines (s : string) : list string :=
  match s with
  | EmptyString => [EmptyString]
  | String c s' =>
      if Ascii.eqb c (ascii_of_nat 10) then EmptyString :: split_lines s'
      else match split_lines s' with
           | [] => [String c EmptyString]
           | l :: ls => String c l :: ls
           end
  end.

(** [s] without the prefix [p], when it starts with it. *)
Fixpoint without_prefix (p s : string) : option string :=
  match p, s with
  | EmptyString, _ => Some s
  | String _ _, EmptyString => None
  | String a p', String b s' =>
      if Ascii.eqb a b then without_prefix p' s' else None
  end.

(** [s] without its first character, when that is one of [chars]. *)
Fixpoint without_first (chars : list string) (s : string) : option string :=
  match chars with
  | [] => None
  | c :: rest =>
      match without_prefix c s with
      | Some s' => Some s'
      | None => without_first rest s
      end
  end.

(** The loop of [lstrip]; [fuel] bounds the number of characters. *)
Fixpoint lstrip_loop (fuel : nat) (chars : list string) (s : string) : string :=
  match fuel with
  | O => s
  | S fuel' =>
      match without_first chars s with
      | Some s' => lstrip_loop fuel' chars s'
      | None => s
      end
  end.

(** [s.lstrip(chars)], the characters given by their encodings. *)
Definition lstrip (chars : list string) (s : string) : string :=
  lstrip_loop (String.length s) chars s.

Fixpoint string_rev_onto (s acc : string) : string :=
  match s with
  | EmptyString => acc
  | String c s' => string_rev_onto s' (String c acc)
  end.

Definition string_rev (s : string) : string := string_rev_onto s EmptyString.

(** [s.rstrip(chars)]: the same from the end, on the bytes in reverse. *)
Definition rstrip (chars : list string) (s : string) : string :=
  string_rev (lstrip (string_rev <$> chars) (string_rev s)).

(** The characters [str.isspace] accepts: U+0009 to U+000D, U+001C to
    U+0020, U+0085, U+00A0, U+1680, U+2000 to U+200A, U+2028, U+2029,
    U+202F, U+205F and U+3000. *)
Definition whitespace : list string :=
  utf8_char
    <$> [9; 10; 11; 12; 13; 28; 29; 30; 31; 32; 133; 160; 5760;
         8192; 8193; 8194; 8195; 8196; 8197; 8198; 8199; 8200; 8201; 8202;
         8232; 8233; 8239; 8287; 12288]%N.

(** [str.strip()] *)
Definition strip (s : string) : string := rstrip whitespace (lstrip whitespace s).

(** The bullet U+2022. *)
Definition bullet : string := utf8_char 8226.

Definition subtask_markers : list string :=
  ["-"; "*"; bullet; "1."; "2."; "3."; "4."; "5."].

(** [line.startswith(('-', '*', ...))] *)
Definition starts_with_marker (line : string) : bool :=
  existsb (λ m, startswith m line) subtask_markers.

(** The characters of [lstrip('-*...0123456789. ')]. *)
Definition marker_characters : list string :=
  ["-"; "*"; bullet; "0"; "1"; "2"; "3"; "4"; "5"; "6"; "7"; "8"; "9"; "."; " "].

(** One iteration of the loop over [lines]; the state is
    [(subtasks, current_subtask)]. *)
Definition parse_line (st : list Subtask * option Subtask) (raw : string)
    : list Subtask * option Subtask :=
  let line := strip raw in
  let '(subtasks, current_subtask) := st in
  if starts_with_marker line then
    let subtasks :=
      match current_subtask with
      | Some cur => subtasks ++ [cur]
      | None => subtasks
      end in
    (subtasks, Some (mkSubtask (lstrip marker_characters line) ""))
  else
    match current_subtask with
    | Some cur =>
        if bool_decide (line ≠ "") then
          (subtasks, Some (mkSubtask (sub_description cur) (sub_details cur +:+ " " +:+ line)))
        else st
    | None => st
    end.

Definition support_subtask (agent : Agent) : Subtask :=
  mkSubtask ("Support task for " +:+ agent_name agent)
            "Provide assistance and support for the main task".

Definition _parse_subtasks (decomposition_text : string) (agents : list Agent)
    : list Subtask :=
  let lines := split_lines decomposition_text in
  let '(subtasks, current_subtask) := foldl parse_line ([], None) lines in
  let subtasks :=
    match current_subtask with
    | Some cur => subtasks ++ [cur]
    | None => subtasks
    end in
  (* while len(subtasks) < len(agents): append the support task of
     agents[len(subtasks)] *)
  let subtasks := subtasks ++ (support_subtask <$> drop (length subtasks) agents) in
  take (length agents) subtasks.

(** ** Choosing collaborators *)

(** The loop of [_select_collaboration_agents] over [self.agents.values()],
    with its accumulators [additional_agents] and [missing_capabilities]. *)
Fixpoint collect_collaborators (primary : Agent) (agents : list Agent)
    (additional_agents : list Agent) (missing_capabilities : gset string)
    : list Agent :=
  match agents with
  | [] => additional_agents
  | agent :: rest =>
      if bool_decide (agent_id agent ≠ agent_id primary)
         && bool_decide (agent_status agent = "idle")
         && Qlt_bool (load_factor agent) load_balance_threshold
         && bool_decide (length additional_agents < max_agents_per_task - 1)%nat
      then
        let agent_capabilities : gset string := list_to_set (capabilities agent) in
        if bool_decide (agent_capabilities ∩ missing_capabilities ≠ ∅) then
          let additional_agents := additional_agents ++ [agent] in
          let missing_capabilities := missing_capabilities ∖ agent_capabilities in
          if bool_decide (missing_capabilities = ∅) then additional_agents
          else collect_collaborators primary rest additional_agents missing_capabilities
        else collect_collaborators primary rest additional_agents missing_capabilities
      else collect_collaborators primary rest additional_agents missing_capabilities
  end.

Definition _select_collaboration_agents (agents : list Agent) (task : Task)
    (primary : Agent) : list Agent :=
  let required : gset string := list_to_set (required_capabilities (context task)) in
  let primary_capabilities : gset string := list_to_set (capabilities primary) in
  let missing_capabilities := required ∖ primary_capabilities in
  if bool_decide (missing_capabilities ≠ ∅)
  then collect_collaborators primary agents [] missing_capabilities
  else [].

(** The local dict [role_assignments]; [.get(type, "specialist")]. *)
Definition role_of (ty : AgentType) : string :=
  match ty with
  | RESEARCH => "researcher"
  | DEVELOPMENT => "developer"
  | AUTOMATION => "automator"
  | ANALYSIS => "analyst"
  | COMMUNICATION => "communicator"
  | CREATIVE => "creative_lead"
  | SYSTEM => "system_specialist"
  | COORDINATION => "specialist"
  end.

Definition _assign_collaboration_roles {S} (agents : list Agent)
    : SE S (gmap string string) :=
  match agents with
  | [] => raise "list index out of range"
  | first :: others =>
      ret (foldl (λ roles agent, <[agent_id agent := role_of (agent_type agent)]> roles)
                 (<[agent_id first := "coordinator"]> ∅) others)
  end.

(** ** Execution *)

Section Coordinator.
Variable env : Env.

(** [self.db.execute(...); self.db.commit()] *)
Definition save {S} (site : DbSite) : SE S unit :=
  match db_error env site with
  | Some msg => raise msg
  | None => ret tt
  end.

(** [_save_collaboration]: the arguments of [self.db.execute] are evaluated
    before the call, among them [json.dumps(collaboration.shared_context)];
    [participating_agents] and [communication_log] hold JSON values only.
    [self.db] is the connection opened by [_init_database]. *)
Definition _save_collaboration {S} (site : DbSite) (collaboration : Collaboration)
    : SE S unit :=
  match json_dumps_error (shared_context_value (shared_context collaboration)) with
  | Some msg => raise msg
  | None => save site
  end.

(** [await self.duckbot_ai.enhanced_request(...)]; on [None] the attribute
    access raises. *)
Definition enhanced_request (site : AiSite) (req : Request) : SE World Response :=
  match duckbot_ai env with
  | None => raise "'NoneType' object has no attribute 'enhanced_request'"
  | Some ai =>
      run modify (λ w, mkWorld (collaborations w) (requests w ++ [(site, req)]));
      match ai site with
      | Returns r => ret r
      | Raises msg => raise msg
      end
  end.

(** [agent.preferred_models[0] if agent.preferred_models else "local"] *)
Definition first_model (agent : Agent) : string :=
  match preferred_models agent with
  | m :: _ => m
  | [] => "local"
  end.

Definition _execute_single_agent_task (task : Task) (agent : Agent)
    : SE World ResultDict :=
  match duckbot_ai env with
  | None =>
      ret (mkResultDict None None (Some "DuckBot AI not available") None None None None None)
  | Some _ =>
      try_except
        (let enhanced_context :=
           EnhancedContext (context task) (capabilities agent) (specializations agent)
             (task_id task) (agent_id agent) in
         let preferred_model := first_model agent in
         do result <- enhanced_request AiSingle
                        (mkRequest (description task) enhanced_context preferred_model);
         if resp_success result then
           match resp_result result with
           | Some p =>
               ret (mkResultDict (Some true) (Some (RVPayload p)) None
                      (Some (agent_id agent)) (Some "single_agent") None None None)
           | None => raise "'result'"
           end
         else
           ret (mkResultDict (Some false) None
                  (Some (default "Unknown error" (resp_error result)))
                  (Some (agent_id agent)) None None None None))
        (λ e, ret (mkResultDict (Some false) None (Some e)
                     (Some (agent_id agent)) None None None None))
  end.

(** [i] is the position of the subtask in the fan-out. *)
Definition _execute_subtask (i : nat) (subtask : Subtask) (agent : Agent)
    : SE World Response :=
  try_except
    (let ctx :=
       SubtaskContext (sub_description subtask) (sub_details subtask)
         (AgentType_value (agent_type agent)) (capabilities agent) in
     let preferred_model := first_model agent in
     do result <- enhanced_request (AiSubtask i)
                    (mkRequest ("Execute this subtask: " +:+ sub_description subtask
                                +:+ ". " +:+ sub_details subtask)
                               ctx preferred_model);
     ret result)
    (λ e, ret (mkResponse false None (Some e))).

(** One awaitable of [asyncio.gather(..., return_exceptions=True)]. *)
Definition capture (c : SE World Response) : SE World Gathered :=
  λ w, match c w with
       | (Ok r, w') => (Ok (GValue r), w')
       | (Exc msg, w') => (Ok (GException msg), w')
       end.

Fixpoint gather (cs : list (SE World Response)) : SE World (list Gathered) :=
  match cs with
  | [] => ret []
  | c :: rest =>
      do g <- capture c;
      do gs <- gather rest;
      ret (g :: gs)
  end.

Definition entry_of (g : Gathered) : EntryValue :=
  match g with
  | GValue r => EntryResult r
  | GException msg => EntryError msg
  end.

(** [collaboration.attr = ...] on the object stored in [self.collaborations]. *)
Definition modify_collaboration (cid : string) (f : Collaboration → Collaboration)
    : SE World unit :=
  modify (λ w, mkWorld (alter f cid (collaborations w)) (requests w)).

Definition _log_collaboration_communication (collaboration : Collaboration)
    (message_type : string) (content : RequestContext) : SE World unit :=
  let log_entry := mkLogEntry (time_time env ClkCollabLog) message_type content in
  let append_entry c := set_communication_log (communication_log c ++ [log_entry]) c in
  run modify_collaboration (collaboration_id collaboration) append_entry;
  _save_collaboration DbCollabLog (append_entry collaboration).

(** The comprehension building ["available_agents"]; a missing role is a
    [KeyError]. *)
Fixpoint available_agents_of (roles : gmap string string) (agents : list Agent)
    : SE World (list AgentInfo) :=
  match agents with
  | [] => ret []
  | agent :: rest =>
      match roles !! agent_id agent with
      | None => raise (agent_id agent)
      | Some role =>
          do infos <- available_agents_of roles rest;
          ret (mkAgentInfo (agent_id agent) (AgentType_value (agent_type agent))
                 (capabilities agent) role :: infos)
      end
  end.

Definition fan_out (subtasks : list Subtask) (others : list Agent)
    : list (SE World Response) :=
  imap (λ i '(subtask, agent), _execute_subtask i subtask agent) (zip subtasks others).

Definition integration_entries (others : list Agent) (subtask_results : list Gathered)
    : list IntegrationEntry :=
  zip_with (λ agent g, mkIntegrationEntry (agent_id agent) (entry_of g))
    others subtask_results.

Definition integrate_prompt : string :=
  "Integrate the subtask results into a final solution for the original task".

Definition _execute_hierarchical_collaboration (collaboration : Collaboration)
    (task : Task) (agents : list Agent) : SE World ResultDict :=
  try_except
    (match agents with
     | [] => raise "list index out of range"
     | primary_agent :: others =>
         (* Phase 1 *)
         do available <- available_agents_of
                           (agent_roles (shared_context collaboration)) agents;
         let decomposition_context := DecompositionContext task available in
         do decomposition_result <-
           enhanced_request AiDecompose
             (mkRequest
                ("As the coordinating agent, decompose this task into subtasks for the available agents: "
                 +:+ description task)
                decomposition_context "reasoning");
         if negb (resp_success decomposition_result) then
           ret (mkResultDict (Some false) None (Some "Task decomposition failed")
                  None None None None None)
         else
           do content <-
             match resp_result decomposition_result with
             | Some (PContent c) => ret c
             | Some (POpaque _) => raise "'content'"
             | None => raise "'result'"
             end;
           let subtasks := _parse_subtasks content others in
           (* Phase 2 *)
           do subtask_results <- gather (fan_out subtasks others);
           (* Phase 3 *)
           let integration_context :=
             IntegrationContext (description task)
               (integration_entries others subtask_results) in
           do final_result <-
             enhanced_request AiIntegrate
               (mkRequest integrate_prompt integration_context "reasoning");
           run _log_collaboration_communication collaboration "integration"
                 integration_context;
           do result_value <-
             (if resp_success final_result then
                match resp_result final_result with
                | Some p => ret (RVPayload p)
                | None => raise "'result'"
                end
              else ret (RVError "Integration failed"));
           ret (mkResultDict (Some true) (Some result_value) None None
                  (Some "hierarchical_collaboration")
                  (Some (collaboration_id collaboration))
                  (Some (agent_id <$> agents))
                  (Some subtask_results))
     end)
    (λ e, ret (mkResultDict (Some false) None (Some e) None
                 (Some "hierarchical_collaboration") None None None)).

(** [agents] is [self.agents.values()] when the collaboration is set up. *)
Definition _execute_collaborative_task (agents : list Agent) (task : Task)
    (primary_agent : Agent) : SE World ResultDict :=
  try_except
    (let cid := collaboration_uuid env in
     let additional_agents := _select_collaboration_agents agents task primary_agent in
     let all_agents := primary_agent :: additional_agents in
     do roles <- _assign_collaboration_roles all_agents;
     let collaboration :=
       mkCollaboration cid ("Collaboration for: " +:+ title task)
         (agent_id <$> all_agents) (agent_id primary_agent) (task_id task)
         "hierarchical" "active" (time_time env ClkCollabCreated) None
         (mkSharedContext task roles) [] in
     run modify (λ w, mkWorld (<[cid := collaboration]> (collaborations w)) (requests w));
     run _save_collaboration DbCollabCreated collaboration;
     do result <- _execute_hierarchical_collaboration collaboration task all_agents;
     let complete c :=
       set_completed_at (Some (time_time env ClkCollabCompleted))
         (set_collab_status "completed" c) in
     run modify_collaboration cid complete;
     run _save_collaboration DbCollabCompleted (complete collaboration);
     ret result)
    (λ e, ret (mkResultDict (Some false) None (Some e) None
                 (Some "collaborative") None None None)).

(** What [_assign_task_to_agent] does to the agent object. *)
Definition take_on (tid : string) (agent : Agent) : Agent :=
  set_load_factor (Qmin 1 (load_factor agent + 0.3))
    (set_agent_status "assigned" (set_current_task (Some tid) agent)).

Definition _assign_task_to_agent : SE Heap unit :=
  do agent <- get_agent;
  run modify_task (set_assigned_agent (Some (agent_id agent)));
  run assign_status ASSIGNED;
  run modify_task (set_updated_at (time_time env ClkAssign));
  do task <- get_task;
  run modify_agent (take_on (task_id task));
  run save DbAssignTask;
  save DbAssignAgent.

(** The two assignments of [agent.success_rate]; [/] on a zero
    [total_tasks] raises [ZeroDivisionError]. *)
Definition updated_success_rate (agent : Agent) (success : bool) : Q :=
  let total_tasks := (total_tasks_completed agent + 1)%Z in
  if success
  then ((success_rate agent * inject_Z (total_tasks_completed agent) + 1)
        / inject_Z total_tasks)%Q
  else ((success_rate agent * inject_Z (total_tasks_completed agent))
        / inject_Z total_tasks)%Q.

Definition _update_agent_performance (success : bool) : SE Heap unit :=
  try_except
    (do agent <- get_agent;
     do task <- get_task;
     let total_tasks := (total_tasks_completed agent + 1)%Z in
     (* Update success rate *)
     run (if (total_tasks =? 0)%Z then raise "float division by zero"
          else modify_agent (set_success_rate (updated_success_rate agent success)));
     (* Update average completion time *)
     run (match actual_duration task with
          | Some duration =>
              if negb (Qeq_bool duration 0) then
                if Qeq_bool (average_completion_time agent) 0 then
                  modify_agent (set_average_completion_time duration)
                else
                  modify_agent
                    (set_average_completion_time
                       ((average_completion_time agent
                         * inject_Z (total_tasks_completed agent) + duration)
                        / inject_Z total_tasks)%Q)
              else ret tt
          | None => ret tt
          end);
     (* Store performance metric *)
     save DbMetric)
    (λ e, ret tt).

(** The agent bookkeeping of the [finally] block of [_execute_task]. *)
Definition release (agent : Agent) : Agent :=
  let agent := set_current_task None agent in
  let agent := set_agent_status "idle" agent in
  let agent := set_load_factor (Qmax 0 (load_factor agent - 0.3)) agent in
  set_total_tasks_completed (total_tasks_completed agent + 1) agent.

(** [agents] is [self.agents.values()] while the task runs.  The closing
    call of [_store_task_completion_in_memory] catches everything it raises
    and changes neither object: it is left out. *)
Definition _execute_task (agents : list Agent) : SE Heap unit :=
  let start_time := time_time env ClkStart in
  try_finally
    (try_except
       (run assign_status IN_PROGRESS;
        run modify_agent (set_agent_status "working");
        run modify_agent (set_last_active start_time);
        run save DbStartTask;
        run save DbStartAgent;
        do task <- get_task;
        do agent <- get_agent;
        do result <-
          lift (if _task_requires_collaboration task
                then _execute_collaborative_task agents task agent
                else _execute_single_agent_task task agent);
        let end_time := time_time env ClkEnd in
        run modify_task (set_actual_duration (Some (end_time - start_time)%Q));
        run _update_agent_performance true;
        run assign_status COMPLETED;
        run modify_task (set_result (Some result));
        modify_task (set_updated_at end_time))
       (λ e,
        let end_time := time_time env ClkEndFailed in
        run modify_task (set_actual_duration (Some (end_time - start_time)%Q));
        run assign_status FAILED;
        run modify_task (set_error_message (Some e));
        run modify_task (set_updated_at end_time);
        _update_agent_performance false))
    (run modify_agent release;
     run save DbFinalTask;
     save DbFinalAgent).

(** What one call of [_process_task_assignment] leaves behind. *)
Inductive Processed :=
  | Launched (h : Heap)
      (* assigned; [_execute_task] is spawned on these objects *)
  | Requeued
      (* no agent: after the back-off the task is put back on its queue *)
  | AssignmentFailed (r : Res unit) (h : Heap).
      (* the handler ran; [r] tells whether its own save raised *)

(** [clock] times the scorer, [agents] is [self.agents.values()], [history]
    the statuses the task had so far. *)
Definition _process_task_assignment (clock : nat → Q) (agents : list Agent)
    (task : Task) (history : list TaskStatus) (w : World) : Processed :=
  match _select_best_agent clock agents task with
  | Some best_agent =>
      match _assign_task_to_agent (mkHeap task best_agent history w) with
      | (Ok _, h) => Launched h
      | (Exc e, h) =>
          match (run assign_status FAILED;
                 run modify_task (set_error_message (Some e));
                 save DbAssignFailed) h with
          | (r, h') => AssignmentFailed r h'
          end
      end
  | None => Requeued
  end.

(** One turn of the scheduler for the task. *)
Record Attempt := mkAttempt {
  score_clock : nat → Q;
  agents_at_dispatch : list Agent;
  agents_at_execution : list Agent
}.

Inductive Lifecycle :=
  | StillQueued
  | Ended (r : Res unit) (h : Heap).

(** The task from submission on: it is dispatched at each attempt until an
    agent is found, then executed. *)
Fixpoint run_task (attempts : list Attempt) (task : Task) (w : World) : Lifecycle :=
  match attempts with
  | [] => StillQueued
  | attempt :: later =>
      match _process_task_assignment (score_clock attempt)
              (agents_at_dispatch attempt) task [status task] w with
      | Launched h =>
          match _execute_task (agents_at_execution attempt) h with
          | (r, h') => Ended r h'
          end
      | Requeued => run_task later task w
      | AssignmentFailed r h => Ended r h
      end
  end.

End Coordinator.

(** The statuses an observer of the task sees, oldest first. *)
Definition observed_statuses (task : Task) (l : Lifecycle) : list TaskStatus :=
  match l with
  | StillQueued => [status task]
  | Ended _ h => status_history h
  end.

(** ** Submission *)

(** [str(uuid.uuid4())]: 36 characters. *)
Record UUID := mkUUID {
  uuid_text : string;
  uuid_length : String.length uuid_text = 36%nat
}.

(** What [asyncio.create_task] schedules from [SubmitTask]. *)
Inductive Spawned :=
  | SpawnSaveTask (task : Task)
  | SpawnQueuePut (queue : TaskPriority) (task : Task).

Record Store := mkStore {
  tasks : gmap string Task;
  spawned : list Spawned
}.

Section Submission.
(** [json.loads] restricted to the recognised keys; [None] when it raises
    [JSONDecodeError]. *)
Variable json_loads : string → option Context.

(** The body of the [try] block: the fresh id and the store after it, or the
    exception. [created] and [updated] are the two readings of the clock. *)
Definition submit_body (u : UUID) (created updated : Q)
    (title description task_type : string) (priority : Z) (context : string)
    (s : Store) : Res (string * Store) :=
  let task_id := uuid_text u in
  match TaskPriority_of_value priority with
  | None => Exc (pretty priority +:+ " is not a valid TaskPriority")
  | Some p =>
      match (if bool_decide (context ≠ "") then json_loads context
             else Some empty_context) with
      | None => Exc "JSONDecodeError"
      | Some ctx =>
          let task :=
            mkTask task_id title description task_type p PENDING created updated
              None None None None ctx None None 300 None None in
          Ok (task_id,
              mkStore (<[task_id := task]> (tasks s))
                (spawned s ++ [SpawnSaveTask task; SpawnQueuePut p task]))
      end
  end.

Definition SubmitTask (u : UUID) (created updated : Q)
    (title description task_type : string) (priority : Z) (context : string)
    (s : Store) : string * Store :=
  match submit_body u created updated title description task_type priority context s with
  | Ok r => r
  | Exc e => ("", s)
  end.

End Submission.

(** * The specification's reading of the selector, the router and progress *)

(** Capability coverage of the scorer: [|required ∩ capabilities| / |required|],
    nothing when the task requires nothing. *)
Definition capability_coverage (agent : Agent) (task : Task) : Q :=
  let required := required_capabilities (context task) in
  if bool_decide (distinct_count required ≠ 0%nat)
  then (Qof_nat (overlap_count required (capabilities agent))
        / Qof_nat (distinct_count required))%Q
  else 0%Q.

Definition specialization_overlap (agent : Agent) (task : Task) : nat :=
  overlap_count (ctx_specializations (context task)) (specializations agent).

Definition recency_bonus (now : Q) (agent : Agent) : Q :=
  if Qlt_bool (now - last_active agent) 3600 then 10%Q else 0%Q.

Definition speed_bonus (agent : Agent) (task : Task) : Q :=
  if bool_decide (priority task ∈ [HIGH; CRITICAL; EMERGENCY])
     && Qlt_bool 0 (average_completion_time agent)
  then (10 * Qmin 1 (300 / average_completion_time agent))%Q
  else 0%Q.

(** Every term of the score but the specialization term. *)
Definition score_without_specialization (now : Q) (agent : Agent) (task : Task) : Q :=
  (success_rate agent * 30 + (1 - load_factor agent) * 20
   + capability_coverage agent task * 25
   + recency_bonus now agent + speed_bonus agent task)%Q.

(** The score with the overlap count taken as it is. *)
Definition score_formula (now : Q) (agent : Agent) (task : Task) : Q :=
  (score_without_specialization now agent task
   + Qof_nat (specialization_overlap agent task) * 15)%Q.


(** The five complexity indicators, in the specification's words. *)
Inductive Indicator :=
  | LongDescription | ManySubtasks | ManyCapabilities
  | HighPriority | CollaborationKeyword.

(** [c] is the letter [l], given in lower case, in lower or in upper case. *)
Definition in_either_case (l c : ascii) : Prop :=
  c = l ∨ (nat_of_ascii c + 32 = nat_of_ascii l)%nat.

(** [s] spells [word], whatever the case of its letters. *)
Fixpoint spells (word s : string) : Prop :=
  match word, s with
  | EmptyString, EmptyString => True
  | String l word', String c s' => in_either_case l c ∧ spells word' s'
  | _, _ => False
  end.

(** [text] is the description of [task], character by character. *)
Definition indicator_holds (text : list N) (task : Task) (i : Indicator) : Prop :=
  match i with
  | LongDescription => (500 < length text)%nat
  | ManySubtasks => (3 < estimated_subtasks (context task))%Q
  | ManyCapabilities => (3 < length (required_capabilities (context task)))%nat
  | HighPriority => priority task = HIGH ∨ priority task = CRITICAL
  | CollaborationKeyword =>
      ∃ before word after : string,
        description task = before +:+ word +:+ after
        ∧ spells "collaboration" word
  end.

(** Progress as the specification words it: the time-based estimate for
    every status other than completed and failed. *)
Definition progress_as_specified (now : Q) (task : Task) : Q :=
  match status task with
  | COMPLETED => 100
  | FAILED => 0
  | _ =>
      if Qlt_bool 0 (estimated_duration task)
      then Qmin 90 (((now - created_at task) / estimated_duration task) * 100)
      else 50
  end.


(** The indicator the code computes for each of the five. *)
Definition indicator_bool (task : Task) (i : Indicator) : bool :=
  match i with
  | LongDescription => bool_decide (500 < len (description task))%nat
  | ManySubtasks => Qlt_bool 3 (estimated_subtasks (context task))
  | ManyCapabilities =>
      bool_decide (3 < length (required_capabilities (context task)))%nat
  | HighPriority => bool_decide (priority task ∈ [HIGH; CRITICAL])
  | CollaborationKeyword => contains "collaboration" (lower (description task))
  end.


(** * What the bookkeeping leaves behind *)

(** [a1] is [a] after one call of [_update_agent_performance] for a task of
    duration [d]: only the two statistics may differ. *)
Definition performance_recorded (success : bool) (d : Q) (a a1 : Agent) : Prop :=
  set_success_rate (success_rate a)
    (set_average_completion_time (average_completion_time a) a1) = a
  ∧ ((total_tasks_completed a + 1 ≠ 0)%Z →
     success_rate a1 = updated_success_rate a success
     ∧ average_completion_time a1
       = if Qeq_bool d 0 then average_completion_time a
         else if Qeq_bool (average_completion_time a) 0 then d
              else ((average_completion_time a * inject_Z (total_tasks_completed a) + d)
                    / inject_Z (total_tasks_completed a + 1))%Q).

(** The agent as [_execute_task] has it when the work starts. *)
Definition at_work (start_time : Q) (agent : Agent) : Agent :=
  set_last_active start_time (set_agent_status "working" agent).

(** The operations that move an agent's load factor: an assignment, and a
    whole execution with its cleanup, each in its own environment. *)
Inductive LoadOp :=
  | OpAssign (env : Env) (task : Task) (history : list TaskStatus) (w : World)
  | OpExecute (env : Env) (agents : list Agent) (task : Task)
      (history : list TaskStatus) (w : World).

Definition apply_op (agent : Agent) (op : LoadOp) : Agent :=
  match op with
  | OpAssign env task history w =>
      h_agent (_assign_task_to_agent env (mkHeap task agent history w)).2
  | OpExecute env agents task history w =>
      h_agent (_execute_task env agents (mkHeap task agent history w)).2
  end.

(** What the two saves of the [finally] block answer. *)
Definition closing_saves (env : Env) : Res unit :=
  match db_error env DbFinalTask with
  | Some e => Exc e
  | None => match db_error env DbFinalAgent with
            | Some e => Exc e
            | None => Ok tt
            end
  end.

(** The world only grows: collaborations stay, requests are appended. *)
Definition grows (w w' : World) : Prop :=
  (∀ k, is_Some (collaborations w !! k) → is_Some (collaborations w' !! k))
  ∧ ∃ more, requests w' = requests w ++ more.

(** * The task state machine *)

(** The transitions the specification allows:
    pending → assigned → in_progress → completed | failed, and cancelled from
    any state that is not terminal. *)
Definition specified_step (s s' : TaskStatus) : bool :=
  match s, s' with
  | PENDING, ASSIGNED
  | ASSIGNED, IN_PROGRESS
  | IN_PROGRESS, COMPLETED
  | IN_PROGRESS, FAILED => true
  | (PENDING | ASSIGNED | IN_PROGRESS | WAITING), CANCELLED => true
  | _, _ => false
  end.

(** The same with the transition assigned → failed added. *)
Definition observed_step (s s' : TaskStatus) : bool :=
  specified_step s s'
  || (bool_decide (s = ASSIGNED) && bool_decide (s' = FAILED)).

(** Every two consecutive statuses are a transition. *)
Fixpoint is_chain (step : TaskStatus → TaskStatus → bool) (l : list TaskStatus)
    : bool :=
  match l with
  | s :: rest =>
      match rest with
      | s' :: _ => step s s' && is_chain step rest
      | [] => true
      end
  | [] => true
  end.

(** A path of the state machine starts at pending. *)
Definition is_path (step : TaskStatus → TaskStatus → bool) (l : list TaskStatus)
    : bool :=
  bool_decide (head l = Some PENDING) && is_chain step l.

(** * What the fan-out gathers *)

(** The value [_execute_subtask] hands back for the [i]-th subtask: the
    reply of the backend, or the dict built from the exception it raised. *)
Definition subtask_outcome (ai : AiSite → Outcome) (i : nat) : Response :=
  match ai (AiSubtask i) with
  | Returns r => r
  | Raises msg => mkResponse false None (Some msg)
  end.

Definition gathered_outcomes (ai : AiSite → Outcome) (n : nat) : list Gathered :=
  (λ i, GValue (subtask_outcome ai i)) <$> seq 0 n.

(** * The default catalog and the system status *)

(** The list [default_agents] of [_init_default_agents]; the fields it does
    not pass take the defaults of the dataclass. *)
Definition default_agent (id : string) (ty : AgentType) (name description : string)
    (caps specs models : list string) (resources : list (string * string)) : Agent :=
  mkAgent id ty name description caps specs None "idle" 0 1 0 0 0 models resources.

(** The last agent of the catalog, which becomes [self.coordinator_agent]. *)
Definition coordination_master : Agent :=
  default_agent "coordination_master" COORDINATION "Coordination Master"
    "Meta-agent responsible for coordinating and managing other agents"
    ["task_decomposition"; "agent_selection"; "load_balancing"; "conflict_resolution"]
    ["project_management"; "resource_allocation"; "strategic_planning"]
    ["reasoning"; "general"]
    [("memory", "high"); ("processing", "medium")].

Definition default_agents : list Agent :=
  [ default_agent "research_specialist" RESEARCH "Research Specialist"
      "Expert in information gathering, analysis, and research tasks"
      ["web_search"; "data_analysis"; "summarization"; "fact_checking"]
      ["academic_research"; "market_research"; "technical_documentation"]
      ["reasoning"; "general"]
      [("memory", "medium"); ("processing", "medium")];
    default_agent "development_expert" DEVELOPMENT "Development Expert"
      "Specialized in software development, coding, and technical tasks"
      ["code_generation"; "debugging"; "testing"; "architecture_design"]
      ["python"; "javascript"; "system_programming"; "web_development"]
      ["code"; "reasoning"]
      [("memory", "high"); ("processing", "high")];
    default_agent "automation_engineer" AUTOMATION "Automation Engineer"
      "Expert in task automation, scripting, and workflow optimization"
      ["script_generation"; "workflow_design"; "system_integration"; "monitoring"]
      ["bash_scripting"; "python_automation"; "desktop_automation"]
      ["code"; "general"]
      [("memory", "medium"); ("processing", "medium")];
    default_agent "data_analyst" ANALYSIS "Data Analyst"
      "Specialized in data analysis, visualization, and insights"
      ["data_processing"; "statistical_analysis"; "visualization"; "reporting"]
      ["pandas"; "matplotlib"; "statistical_modeling"; "business_intelligence"]
      ["reasoning"; "code"]
      [("memory", "high"); ("processing", "high")];
    default_agent "communication_assistant" COMMUNICATION "Communication Assistant"
      "Expert in communication, writing, and social interaction"
      ["content_writing"; "email_composition"; "social_media"; "translation"]
      ["professional_writing"; "technical_writing"; "customer_service"]
      ["general"; "reasoning"]
      [("memory", "low"); ("processing", "medium")];
    default_agent "creative_designer" CREATIVE "Creative Designer"
      "Specialized in creative tasks, design, and content creation"
      ["content_creation"; "design_thinking"; "brainstorming"; "visual_design"]
      ["graphic_design"; "ui_ux"; "creative_writing"; "branding"]
      ["general"; "creative"]
      [("memory", "medium"); ("processing", "medium")];
    default_agent "system_administrator" SYSTEM "System Administrator"
      "Expert in system administration, monitoring, and infrastructure"
      ["system_monitoring"; "performance_optimization"; "security"; "maintenance"]
      ["linux_administration"; "network_management"; "security_auditing"]
      ["code"; "general"]
      [("memory", "medium"); ("processing", "low")];
    coordination_master ].

(** The JSON object serialised by [GetSystemStatus]. *)
Record SystemStatus := mkSystemStatus {
  total_agents : nat;
  active_agents : nat;
  pending_tasks : nat;
  active_tasks : nat;
  active_collaborations : nat;
  system_load : Q
}.

(** [sum(a.load_factor for a in agents)] *)
Definition sum_load (agents : list Agent) : Q :=
  foldl (λ acc a, (acc + load_factor a)%Q) 0%Q agents.

(** [agents] is [self.agents.values()]; the two maps are [self.tasks] and
    [self.collaborations], whose values are counted. *)
Definition GetSystemStatus (agents : list Agent) (store : gmap string Task)
    (collabs : gmap string Collaboration) : SystemStatus :=
  mkSystemStatus
    (length agents)
    (length (filter (λ a, agent_status a ≠ "idle") agents))
    (length (filter (λ t, status t = PENDING) (map_to_list store).*2))
    (length (filter (λ t, status t = IN_PROGRESS) (map_to_list store).*2))
    (length (filter (λ c, collab_status c = "active") (map_to_list collabs).*2))
    (if bool_decide (agents ≠ [])
     then (sum_load agents / Qof_nat (length agents))%Q
     else 0%Q).

(** * Outcomes of the writes around a task *)

(** What the two saves at the start of [_execute_task] answer: the message of
    the first one that raises. *)
Definition start_up_error (env : Env) : option string :=
  match db_error env DbStartTask with
  | Some e => Some e
  | None => db_error env DbStartAgent
  end.

(** The same for the two saves of [_assign_task_to_agent]. *)
Definition assignment_error (env : Env) : option string :=
  match db_error env DbAssignTask with
  | Some e => Some e
  | None => db_error env DbAssignAgent
  end.

(** The work [_execute_task] hands to one of the two execution functions. *)
Definition execution (env : Env) (agents : list Agent) (h : Heap)
    : SE World ResultDict :=
  if _task_requires_collaboration (h_task h)
  then _execute_collaborative_task env agents
         (set_status IN_PROGRESS (h_task h))
         (at_work (time_time env ClkStart) (h_agent h))
  else _execute_single_agent_task env
         (set_status IN_PROGRESS (h_task h))
         (at_work (time_time env ClkStart) (h_agent h)).

(** * Collaborators *)

(** What [_select_collaboration_agents] asks of each agent it adds, for the
    primary agent [primary] and a task requiring [required]. *)
Definition fills_a_gap (primary : Agent) (required : list string) (b : Agent) : Prop :=
  agent_id b ≠ agent_id primary
  ∧ agent_status b = "idle"
  ∧ (load_factor b < load_balance_threshold)%Q
  ∧ ∃ c, c ∈ capabilities b ∧ c ∈ required ∧ c ∉ capabilities primary.

(** A description that does not begin with a character [_parse_subtasks]
    strips. *)
Definition clean_description (s : string) : Prop :=
  ∀ c, c ∈ marker_characters → startswith c s = false.

(** * Text *)

(** A word made of the letters a to z. *)
Fixpoint lower_case_word (word : string) : Prop :=
  match word with
  | EmptyString => True
  | String l word' =>
      (97 ≤ nat_of_ascii l ≤ 122)%nat ∧ lower_case_word word'
  end.

(** Code points, as opposed to surrogates and numbers beyond U+10FFFF. *)
Definition is_character (cp : N) : Prop := (cp < 1114112)%N.

(** * Collaboration records *)

(** The message of the [TypeError] that [_save_collaboration] raises. *)
Definition shared_context_refused : string :=
  "Object of type TaskPriority is not JSON serializable".

(** The record [_execute_collaborative_task] registers for [task], its
    primary agent and the agents added to it. *)
Definition new_collaboration (env : Env) (task : Task) (primary : Agent)
    (additional : list Agent) (roles : gmap string string) : Collaboration :=
  mkCollaboration (collaboration_uuid env) ("Collaboration for: " +:+ title task)
    (agent_id <$> primary :: additional) (agent_id primary) (task_id task)
    "hierarchical" "active" (time_time env ClkCollabCreated) None
    (mkSharedContext task roles) [].

(** The dict a refused write leaves as the result of the collaboration. *)
Definition refused_result (execution_type : string) : ResultDict :=
  mkResultDict (Some false) None (Some shared_context_refused) None
    (Some execution_type) None None None.
(** * Concrete inputs *)

(** Two agents as in the selection scenario of the specification. *)
Definition agent_A : Agent :=
  mkAgent "A" DEVELOPMENT "Agent A" "" ["code_generation"] [] None "idle"
    0 0.9 0 0 0 [] [].

Definition agent_B : Agent :=
  mkAgent "B" RESEARCH "Agent B" "" [] [] None "idle" 0 0.9 0 0 0 [] [].

Definition coding_task : Task :=
  mkTask "task-1" "Write a parser" "Write a parser for the log format"
    "development" MEDIUM PENDING 0 0 None None None None
    (mkContext ["code_generation"] [] 0) None None 300 None None.

Definition frozen_clock : nat → Q := λ _, 0%Q.




(** A task that has an agent but has not started, 40 seconds old, and the
    same task once started. *)
Definition assigned_task : Task :=
  mkTask "task-3" "Index the logs" "Index the logs" "analysis" LOW ASSIGNED
    0 0 (Some "A") None None None empty_context None None 100 None None.

Definition started_task : Task := set_status IN_PROGRESS assigned_task.

(** A uuid, and a parser that knows one document. *)
Definition sample_uuid : UUID :=
  mkUUID "123e4567-e89b-42d3-a456-426614174000" eq_refl.

Definition sample_json_loads (s : string) : option Context :=
  if bool_decide (s = "{}") then Some empty_context else None.

Definition empty_store : Store := mkStore ∅ [].

(** A backend that refuses every request, a database that accepts every
    write, and an empty world. *)
Definition refusing_ai : AiSite → Outcome :=
  λ _, Returns (mkResponse false None (Some "model overloaded")).

Definition refusing_env : Env :=
  mkEnv (Some refusing_ai) (λ _, None) (λ _, 0%Q) "collab-1".

Definition empty_world : World := mkWorld ∅ [].

(** An agent with two tasks behind it and no average recorded yet, and an
    environment whose clock gives the execution ten seconds. *)
Definition veteran : Agent :=
  mkAgent "A" DEVELOPMENT "Agent A" "" ["code_generation"] [] (Some "task-1")
    "assigned" 0.3 0.5 0 2 0 [] [].

Definition ten_second_env : Env :=
  mkEnv None (λ _, None)
    (λ site, match site with ClkEnd | ClkEndFailed => 10%Q | _ => 0%Q end)
    "collab-1".

Definition assigned_heap : Heap :=
  mkHeap (set_status ASSIGNED coding_task) veteran [PENDING; ASSIGNED] empty_world.

(** An environment in which the first write of the assignment fails. *)
Definition locked_env : Env :=
  mkEnv (Some refusing_ai)
    (λ site, match site with
             | DbAssignTask => Some "database is locked"
             | _ => None
             end)
    (λ _, 0%Q) "collab-1".

Definition one_attempt : Attempt :=
  mkAttempt frozen_clock [agent_B; agent_A] [agent_B; agent_A].

(** A collaboration of a coordinator with one developer whose subtask
    crashes, while decomposition and integration answer. *)
Definition coordinator : Agent :=
  mkAgent "coordination_master" COORDINATION "Coordination Master" ""
    ["task_decomposition"] [] (Some "task-4") "working" 0.3 1 0 0 0
    ["reasoning"] [].

Definition release_task : Task :=
  mkTask "task-4" "Ship the release"
    "Ship the release in collaboration with development" "development" HIGH
    IN_PROGRESS 0 0 (Some "coordination_master") None None None
    (mkContext ["code_generation"] [] 0) None None 300 None None.

Definition crashing_ai (site : AiSite) : Outcome :=
  match site with
  | AiDecompose => Returns (mkResponse true (Some (PContent "- write the code")) None)
  | AiSubtask _ => Raises "subtask crashed"
  | AiIntegrate => Returns (mkResponse true (Some (PContent "integrated")) None)
  | AiSingle => Raises "not used"
  end.

Definition crashing_env : Env :=
  mkEnv (Some crashing_ai) (λ _, None) (λ _, 0%Q) "collab-1".

(** A backend that raises on every request. *)
Definition raising_env : Env :=
  mkEnv (Some (λ _, Raises "connection reset")) (λ _, None) (λ _, 0%Q) "collab-1".

Definition release_heap : Heap :=
  mkHeap (set_status ASSIGNED release_task)
    (set_agent_status "assigned" coordinator) [PENDING; ASSIGNED] empty_world.

(** A task of a type the compatibility table does not know. *)
Definition odd_task : Task :=
  mkTask "task-5" "Water the plants" "Water the plants" "gardening" LOW
    PENDING 0 0 None None None None empty_context None None 300 None None.

(** Agents that are all busy. *)
Definition busy_agents : list Agent :=
  [set_agent_status "working" agent_A; set_agent_status "assigned" agent_B].

Definition busy_attempt : Attempt := mkAttempt frozen_clock busy_agents busy_agents.

(** An environment in which the first write of the execution fails. *)
Definition failing_start_env : Env :=
  mkEnv (Some refusing_ai)
    (λ site, match site with
             | DbStartTask => Some "disk I/O error"
             | _ => None
             end)
    (λ _, 0%Q) "collab-1".


(** A registry of two agents, one of them at work. *)
Definition half_busy : list Agent :=
  [set_load_factor 1 (set_agent_status "working" agent_A); agent_B].




(** A request for collaboration written in capitals, with high priority. *)
Definition shouted_text : list N :=
  [67; 79; 76; 76; 65; 66; 79; 82; 65; 84; 73; 79; 78;
   32; 119; 97; 110; 116; 101; 100]%N.

Definition shouted_task : Task :=
  mkTask "task-6" "Review" "COLLABORATION wanted" "analysis" HIGH PENDING 0 0
    None None None None empty_context None None 300 None None.

(** A critical task described by three hundred accented letters, of two
    bytes each. *)
Definition accented_text : list N := replicate 300 233%N.

Definition accented_task : Task :=
  mkTask "task-7" "Resume" (utf8 accented_text) "creative" CRITICAL PENDING 0 0
    None None None None empty_context None None 300 None None.
(** * Proofs *)

(** ** Numbers *)

Lemma Qlt_bool_iff (x y : Q) : Qlt_bool x y = true ↔ (x < y)%Q.
Proof.
  unfold Qlt_bool. rewrite negb_true_iff.
  split.
  - intros H. apply Qnot_le_lt. intros Hle.
    apply Qle_bool_iff in Hle. congruence.
  - intros H. destruct (Qle_bool y x) eqn:E; [|reflexivity].
    apply Qle_bool_iff in E. exfalso. apply (Qlt_not_le _ _ H E).
Qed.

Lemma Qlt_bool_false_iff (x y : Q) : Qlt_bool x y = false ↔ (y <= x)%Q.
Proof.
  unfold Qlt_bool. rewrite negb_false_iff. apply Qle_bool_iff.
Qed.

Lemma Qof_nat_nonneg (n : nat) : (0 <= Qof_nat n)%Q.
Proof.
  unfold Qof_nat, Qle. simpl. lia.
Qed.

(** ** Sets of tags *)

Lemma overlap_count_nothing_required (xs ys : list string) :
  distinct_count xs = 0%nat → overlap_count xs ys = 0%nat.
Proof.
  unfold distinct_count, overlap_count. intros H.
  apply size_empty_iff in H. apply size_empty_iff. set_solver.
Qed.


(** ** The stable descending sort *)

Lemma insert_desc_length x l : length (insert_desc x l) = S (length l).
Proof.
  induction l as [|z l IH]; simpl; [done|].
  destruct (Qle_bool (snd z) (snd x)); simpl; by rewrite ?IH.
Qed.

Lemma sort_desc_length l : length (sort_desc l) = length l.
Proof.
  induction l as [|x l IH]; simpl; [done|].
  by rewrite insert_desc_length, IH.
Qed.

(** The head of the sorted list is the first element of largest key. *)
Lemma sort_desc_head l best rest :
  sort_desc l = best :: rest →
  ∃ i : nat, l !! i = Some best
    ∧ ∀ (j : nat) y, l !! j = Some y →
        (snd y <= snd best)%Q ∧ ((j < i)%nat → (snd y < snd best)%Q).
Proof.
  revert best rest. induction l as [|x l IH]; intros best rest; simpl; [done|].
  destruct (sort_desc l) as [|b r] eqn:Hs.
  - assert (l = []) as ->.
    { apply (f_equal length) in Hs. rewrite sort_desc_length in Hs.
      by destruct l. }
    simpl. intros [= <- <-]. exists 0%nat. split; [done|].
    intros [|j] y; simpl; [|done]. intros [= <-]. split; [apply Qle_refl|lia].
  - destruct (IH b r eq_refl) as (i & Hi & Hmax).
    simpl. destruct (Qle_bool (snd b) (snd x)) eqn:Hle.
    + apply Qle_bool_iff in Hle. intros [= <- <-].
      exists 0%nat. split; [done|].
      intros [|j] y; simpl.
      * intros [= <-]. split; [apply Qle_refl|lia].
      * intros Hy. split; [|lia].
        eapply Qle_trans; [apply (Hmax j y Hy)|done].
    + assert (snd x < snd b)%Q as Hlt.
      { apply Qnot_le_lt. intros H. apply Qle_bool_iff in H. congruence. }
      intros [= <- <-].
      exists (S i). split; [done|].
      intros [|j] y; simpl.
      * intros [= <-]. split; [by apply Qlt_le_weak|done].
      * intros Hy. destruct (Hmax j y Hy) as [H1 H2].
        split; [done|]. intros ?. apply H2. lia.
Qed.

(** ** The selector *)

Lemma score_agents_lookup clock k task l (j : nat) :
  score_agents clock k task l !! j
  = (λ b, (b, _calculate_agent_score (clock (k + j)%nat) b task)) <$> l !! j.
Proof.
  revert k j. induction l as [|a l IH]; intros k [|j]; simpl; try done.
  - by rewrite Nat.add_0_r.
  - rewrite IH. by replace (S k + j)%nat with (k + S j)%nat by lia.
Qed.

Lemma select_best_agent_inv clock agents task a :
  _select_best_agent clock agents task = Some a →
  ∃ i : nat,
    List.filter (is_available task) agents !! i = Some a
    ∧ ∀ (j : nat) b,
        List.filter (is_available task) agents !! j = Some b →
        (_calculate_agent_score (clock j) b task
         <= _calculate_agent_score (clock i) a task)%Q
        ∧ ((j < i)%nat →
           (_calculate_agent_score (clock j) b task
            < _calculate_agent_score (clock i) a task)%Q).
Proof.
  unfold _select_best_agent.
  destruct (List.filter (is_available task) agents) as [|a0 avail] eqn:Hf; [done|].
  destruct (sort_desc (score_agents clock 0 task (a0 :: avail)))
    as [|best rest] eqn:Hs; [done|].
  intros [= <-].
  destruct (sort_desc_head _ _ _ Hs) as (i & Hi & Hmax).
  rewrite score_agents_lookup in Hi. simpl in Hi.
  destruct ((a0 :: avail) !! i) as [c|] eqn:Hc; [|done].
  simpl in Hi. injection Hi as <-. simpl.
  exists i. split; [done|].
  intros j b Hb.
  specialize (Hmax j (b, _calculate_agent_score (clock j) b task)).
  rewrite score_agents_lookup in Hmax. simpl in Hmax.
  rewrite Hb in Hmax. simpl in Hmax. by apply Hmax.
Qed.

Lemma select_best_agent_available clock agents task a :
  _select_best_agent clock agents task = Some a →
  a ∈ agents ∧ is_available task a = true.
Proof.
  intros H. destruct (select_best_agent_inv _ _ _ _ H) as (i & Hi & _).
  apply list_elem_of_lookup_2 in Hi. apply list_elem_of_In in Hi.
  apply filter_In in Hi. destruct Hi as [Hi ?].
  split; [by apply list_elem_of_In|done].
Qed.

Lemma distinct_count_nonempty (xs : list string) :
  xs ≠ [] → distinct_count xs ≠ 0%nat.
Proof.
  destruct xs as [|x xs]; [done|]. intros _.
  unfold distinct_count. apply size_non_empty_iff. set_solver.
Qed.

Lemma agent_can_handle_required agent task :
  required_capabilities (context task) ≠ [] →
  _agent_can_handle_task agent task = true →
  (0.5 <= Qof_nat (overlap_count (capabilities agent)
                     (required_capabilities (context task)))
          / Qof_nat (distinct_count (required_capabilities (context task))))%Q.
Proof.
  intros Hne. unfold _agent_can_handle_task.
  rewrite (bool_decide_eq_true_2 _ Hne).
  rewrite (bool_decide_eq_true_2 _ (distinct_count_nonempty _ Hne)).
  apply Qle_bool_iff.
Qed.

Lemma agent_can_handle_by_type agent task :
  required_capabilities (context task) = [] →
  _agent_can_handle_task agent task = true →
  agent_type agent ∈ default [] (task_type_mapping !! task_type task)
  ∨ agent_type agent = COORDINATION.
Proof.
  intros He. unfold _agent_can_handle_task. rewrite He.
  rewrite bool_decide_eq_false_2 by (intros H; by apply H).
  intros H. apply orb_true_iff in H.
  destruct H as [H|H]; apply bool_decide_eq_true in H; tauto.
Qed.

Lemma is_available_inv task agent :
  is_available task agent = true →
  agent_status agent = "idle"
  ∧ (load_factor agent < load_balance_threshold)%Q
  ∧ _agent_can_handle_task agent task = true.
Proof.
  unfold is_available. rewrite !andb_true_iff, bool_decide_eq_true, Qlt_bool_iff.
  tauto.
Qed.

(** C1. Whatever agent [_select_best_agent] returns is one of the agents, is
    idle, has a load factor strictly below 0.8 and matches the task: when the
    task requires capabilities, at least half of the distinct required ones
    are among the agent's; when it requires none, the agent's type is in the
    table entry of the task type or the agent is the coordination type.
    And with two idle agents A (capabilities code_generation) and B (no
    capabilities), both of success rate 0.9 and load 0, a task requiring
    code_generation goes to A, whichever of the two was registered first. *)
Theorem C1_selected_agent_is_eligible :
  (∀ clock agents task a,
     _select_best_agent clock agents task = Some a →
     a ∈ agents
     ∧ agent_status a = "idle"
     ∧ (load_factor a < 0.8)%Q
     ∧ (required_capabilities (context task) ≠ [] →
        (0.5 <= Qof_nat (overlap_count (capabilities a)
                           (required_capabilities (context task)))
                / Qof_nat (distinct_count (required_capabilities (context task))))%Q)
     ∧ (required_capabilities (context task) = [] →
        agent_type a ∈ default [] (task_type_mapping !! task_type task)
        ∨ agent_type a = COORDINATION))
  ∧ (∀ clock A B task,
       agent_status A = "idle" → agent_status B = "idle" →
       capabilities A = ["code_generation"] → capabilities B = [] →
       (success_rate A == 0.9)%Q → (success_rate B == 0.9)%Q →
       (load_factor A == 0)%Q → (load_factor B == 0)%Q →
       required_capabilities (context task) = ["code_generation"] →
       _select_best_agent clock [A; B] task = Some A
       ∧ _select_best_agent clock [B; A] task = Some A).
Proof.
  split.
  - intros clock agents task a H.
    destruct (select_best_agent_available _ _ _ _ H) as [Hin Hav].
    destruct (is_available_inv _ _ Hav) as (Hidle & Hload & Hcan).
    repeat split; try done.
    + intros Hne. by apply agent_can_handle_required.
    + intros He. by apply agent_can_handle_by_type.
  - intros clock A B task HsA HsB HcA HcB _ _ HlA HlB Hreq.
    assert (is_available task A = true) as HA.
    { unfold is_available, _agent_can_handle_task.
      rewrite HsA, Hreq, HcA.
      assert (Qlt_bool (load_factor A) load_balance_threshold = true) as ->.
      { apply Qlt_bool_iff. rewrite HlA. reflexivity. }
      reflexivity. }
    assert (is_available task B = false) as HB.
    { unfold is_available, _agent_can_handle_task.
      rewrite HsB, Hreq, HcB.
      assert (Qlt_bool (load_factor B) load_balance_threshold = true) as ->.
      { apply Qlt_bool_iff. rewrite HlB. reflexivity. }
      reflexivity. }
    unfold _select_best_agent. simpl. rewrite HA, HB. simpl. done.
Qed.

Lemma C1_witness :
  (agent_status agent_A = "idle" ∧ (load_factor agent_A < 0.8)%Q)
  ∧ _select_best_agent frozen_clock [agent_B; agent_A] coding_task = Some agent_A.
Proof.
  split.
  - assert (_select_best_agent frozen_clock [agent_B; agent_A] coding_task
            = Some agent_A) as H by (vm_compute; reflexivity).
    destruct (proj1 C1_selected_agent_is_eligible _ _ _ _ H) as (_ & H1 & H2 & _).
    split; [exact H1|exact H2].
  - apply (proj2 C1_selected_agent_is_eligible frozen_clock agent_A agent_B coding_task);
      reflexivity.
Defined.

(** ** The score *)

Lemma calculate_agent_score_formula now agent task :
  (_calculate_agent_score now agent task == score_formula now agent task)%Q.
Proof.
  unfold _calculate_agent_score, score_formula, score_without_specialization,
    capability_coverage, specialization_overlap, recency_bonus, speed_bonus.
  pose proof (overlap_count_nothing_required
                (ctx_specializations (context task)) (specializations agent)) as Hnone.
  set (o := overlap_count (ctx_specializations (context task)) (specializations agent)) in *.
  set (cov := (Qof_nat (overlap_count (required_capabilities (context task))
                          (capabilities agent))
               / Qof_nat (distinct_count (required_capabilities (context task))))%Q).
  set (speed := Qmin 1 (300 / average_completion_time agent)).
  assert (bool_decide (distinct_count (ctx_specializations (context task)) ≠ 0%nat)
          && bool_decide (0 < o)%nat = false → Qof_nat o = 0%Q) as Hzero.
  { intros H. apply andb_false_iff in H.
    destruct H as [H|H]; apply bool_decide_eq_false in H.
    - rewrite Hnone; [reflexivity|]. lia.
    - replace o with 0%nat by lia. reflexivity. }
  destruct (bool_decide (distinct_count (required_capabilities (context task)) ≠ 0%nat));
    destruct (bool_decide (distinct_count (ctx_specializations (context task)) ≠ 0%nat));
    destruct (bool_decide (0 < o)%nat);
    destruct (Qlt_bool (now - last_active agent) 3600);
    destruct (Qlt_bool 0 (average_completion_time agent));
    destruct (bool_decide (priority task ∈ [HIGH; CRITICAL; EMERGENCY]));
    simpl in *; rewrite ?Hzero by reflexivity; ring.
Qed.










(** ** Collaboration routing *)

Lemma startswith_iff (needle hay : string) :
  startswith needle hay = true ↔ ∃ after, hay = needle +:+ after.
Proof.
  revert hay. induction needle as [|c needle IH]; intros hay; simpl.
  - split; [intros _; by exists hay|done].
  - destruct hay as [|d hay].
    + split; [done|]. intros [after H]. discriminate.
    + rewrite andb_true_iff, IH, Ascii.eqb_eq. split.
      * intros [<- [after ->]]. by exists after.
      * intros [after H]. injection H as <- ->. split; [done|by exists after].
Qed.

Lemma contains_iff (needle hay : string) :
  contains needle hay = true ↔ ∃ before after, hay = before +:+ needle +:+ after.
Proof.
  induction hay as [|d hay IH]; simpl.
  - rewrite orb_false_r, startswith_iff. split.
    + intros [after H]. by exists "", after.
    + intros (before & after & H). destruct before; [by exists after|done].
  - rewrite orb_true_iff, startswith_iff, IH. split.
    + intros [[after H]|(before & after & H)].
      * by exists "", after.
      * exists (String d before), after. simpl. by rewrite H.
    + intros (before & after & H). destruct before as [|c before].
      * left. by exists after.
      * right. simpl in H. injection H as _ H. by exists before, after.
Qed.

Lemma append_cons (a : ascii) (t s : string) :
  String a t +:+ s = String a (t +:+ s).
Proof. reflexivity. Qed.

Lemma append_nil (s : string) : "" +:+ s = s.
Proof. reflexivity. Qed.

Lemma len_utf8_char cp s :
  is_character cp → len (utf8_char cp +:+ s) = S (len s).
Proof.
  unfold is_character. intros Hcp.
  assert (∀ n, (n < 256)%N → N_of_ascii (ascii_of_N n) = n) as Hbyte.
  { intros n Hn. by apply N_ascii_embedding. }
  assert (∀ n t, (128 ≤ n < 192)%N → len (String (ascii_of_N n) t) = len t)
    as Hcont.
  { intros n t Hn. simpl. unfold is_continuation. rewrite Hbyte by lia.
    destruct (N.leb_spec 128 n), (N.ltb_spec n 192); simpl; lia || done. }
  assert (∀ n t, (n < 128 ∨ 192 ≤ n < 256)%N →
                 len (String (ascii_of_N n) t) = S (len t)) as Hlead.
  { intros n t Hn. simpl. unfold is_continuation. rewrite Hbyte by lia.
    destruct (N.leb_spec 128 n), (N.ltb_spec n 192); simpl; lia || done. }
  assert (cp < 2048 → cp / 64 < 32)%N
    by (intros; apply N.Div0.div_lt_upper_bound; lia).
  assert (cp < 65536 → cp / 4096 < 16)%N
    by (intros; apply N.Div0.div_lt_upper_bound; lia).
  assert (cp / 262144 < 5)%N by (apply N.Div0.div_lt_upper_bound; lia).
  pose proof (N.mod_lt cp 64 ltac:(done)).
  pose proof (N.mod_lt (cp / 64) 64 ltac:(done)).
  pose proof (N.mod_lt (cp / 4096) 64 ltac:(done)).
  unfold utf8_char.
  generalize dependent (cp mod 64)%N. generalize dependent ((cp / 64) mod 64)%N.
  generalize dependent ((cp / 4096) mod 64)%N.
  generalize dependent (cp / 64)%N. generalize dependent (cp / 4096)%N.
  generalize dependent (cp / 262144)%N.
  intros q3 Hq3 q2 Hq2 q1 Hq1 m2 Hm2 m1 Hm1 m0 Hm0.
  destruct (N.ltb_spec cp 128); [|destruct (N.ltb_spec cp 2048);
    [|destruct (N.ltb_spec cp 65536)]]; rewrite !append_cons, append_nil.
  - by rewrite Hlead by lia.
  - rewrite Hlead by lia. by rewrite Hcont by lia.
  - rewrite Hlead by lia. by rewrite !Hcont by lia.
  - rewrite Hlead by lia. by rewrite !Hcont by lia.
Qed.

Lemma len_utf8 (text : list N) :
  Forall is_character text → len (utf8 text) = length text.
Proof.
  induction 1 as [|cp text Hcp _ IH]; [done|].
  simpl utf8. rewrite len_utf8_char by done. simpl. by rewrite IH.
Qed.

Lemma lower_app (s t : string) : lower (s +:+ t) = lower s +:+ lower t.
Proof.
  induction s as [|c s IH]; [done|]. simpl. by rewrite IH.
Qed.

Lemma lower_split (d before rest : string) :
  lower d = before +:+ rest →
  ∃ b r, d = b +:+ r ∧ lower b = before ∧ lower r = rest.
Proof.
  revert d. induction before as [|c before IH]; intros d H.
  - by exists "", d.
  - destruct d as [|x d]; [done|]. simpl in H. injection H as Hx Hd.
    destruct (IH d Hd) as (b & r & -> & Hb & Hr).
    exists (String x b), r. simpl. by rewrite Hx, Hb.
Qed.

Lemma lower_ascii_letter (l c : ascii) :
  (97 ≤ nat_of_ascii l ≤ 122)%nat →
  lower_ascii c = l ↔ in_either_case l c.
Proof.
  intros Hl. unfold lower_ascii, in_either_case.
  pose proof (nat_ascii_bounded c) as Hc.
  destruct (Nat.leb_spec 65 (nat_of_ascii c)) as [Hlo|Hlo];
    [destruct (Nat.leb_spec (nat_of_ascii c) 90) as [Hhi|Hhi]|]; simpl.
  - split.
    + intros <-. right. rewrite nat_ascii_embedding; lia.
    + intros [->|Hup]; [lia|]. rewrite Hup. apply ascii_nat_embedding.
  - split; [by left|]. intros [Heq|Hup]; [done|lia].
  - split; [by left|]. intros [Heq|Hup]; [done|lia].
Qed.

Lemma lower_spells (word s : string) :
  lower_case_word word → lower s = word ↔ spells word s.
Proof.
  revert s. induction word as [|l word IH]; intros s Hword.
  - destruct s; simpl; [done|]. split; [discriminate|done].
  - destruct Hword as [Hl Hword]. destruct s as [|c s]; simpl.
    + split; [discriminate|done].
    + rewrite <- (IH s Hword), <- (lower_ascii_letter l c Hl). split.
      * by intros [= -> ->].
      * by intros [-> ->].
Qed.

Lemma keyword_in_any_case (word d : string) :
  lower_case_word word →
  contains word (lower d) = true
  ↔ ∃ before w after, d = before +:+ w +:+ after ∧ spells word w.
Proof.
  intros Hword. rewrite contains_iff. split.
  - intros (B & A & H).
    destruct (lower_split _ _ _ H) as (b & r & -> & _ & Hr).
    destruct (lower_split _ _ _ Hr) as (w & a & -> & Hw & _).
    exists b, w, a. split; [done|]. by apply lower_spells.
  - intros (b & w & a & -> & Hw). apply lower_spells in Hw; [|done].
    exists (lower b), (lower a). by rewrite !lower_app, Hw.
Qed.

Lemma indicator_reflect text task i :
  Forall is_character text →
  description task = utf8 text →
  indicator_bool task i = true ↔ indicator_holds text task i.
Proof.
  intros Htext Hd. destruct i; simpl.
  - by rewrite bool_decide_eq_true, Hd, len_utf8.
  - apply Qlt_bool_iff.
  - apply bool_decide_eq_true.
  - rewrite bool_decide_eq_true. set_solver.
  - apply keyword_in_any_case. vm_compute. repeat split; lia.
Qed.

Lemma complexity_indicators_by_name task :
  complexity_indicators task
  = indicator_bool task
      <$> [LongDescription; ManySubtasks; ManyCapabilities; HighPriority;
           CollaborationKeyword].
Proof. reflexivity. Qed.

(** C6. For a task whose description is the text [text],
    [_task_requires_collaboration] answers true exactly when two different
    indicators among the five hold: the description has more than 500
    characters, estimated_subtasks is above 3, more than 3 capabilities are
    required, the priority is high or critical, the description contains
    the word collaboration, each of its letters in either case. *)
Theorem C6_collaboration_iff_two_indicators task text :
  Forall is_character text →
  description task = utf8 text →
  _task_requires_collaboration task = true
  ↔ ∃ i j : Indicator,
      i ≠ j ∧ indicator_holds text task i ∧ indicator_holds text task j.
Proof.
  intros Htext Hd.
  unfold _task_requires_collaboration.
  rewrite complexity_indicators_by_name, bool_decide_eq_true.
  setoid_rewrite <- (indicator_reflect text task _ Htext Hd).
  generalize (indicator_bool task). intros f. simpl. split.
  - intros H.
    destruct (f LongDescription) eqn:E1, (f ManySubtasks) eqn:E2,
      (f ManyCapabilities) eqn:E3, (f HighPriority) eqn:E4,
      (f CollaborationKeyword) eqn:E5; simpl in H; try lia;
      first
        [ by exists LongDescription, ManySubtasks
        | by exists LongDescription, ManyCapabilities
        | by exists LongDescription, HighPriority
        | by exists LongDescription, CollaborationKeyword
        | by exists ManySubtasks, ManyCapabilities
        | by exists ManySubtasks, HighPriority
        | by exists ManySubtasks, CollaborationKeyword
        | by exists ManyCapabilities, HighPriority
        | by exists ManyCapabilities, CollaborationKeyword
        | by exists HighPriority, CollaborationKeyword ].
  - intros (i & j & Hne & Hi & Hj).
    destruct i, j; try done; rewrite Hi, Hj; simpl;
      repeat match goal with |- context [f ?k] => destruct (f k) end; simpl; lia.
Qed.

Lemma C6_witness :
  _task_requires_collaboration shouted_task = true
  ∧ _task_requires_collaboration accented_task ≠ true.
Proof.
  split.
  - apply (proj2 (C6_collaboration_iff_two_indicators shouted_task shouted_text
                    ltac:(by repeat constructor) eq_refl)).
    exists HighPriority, CollaborationKeyword.
    split; [done|]. split; [by left|].
    exists "", "COLLABORATION", " wanted". split; [reflexivity|].
    simpl. repeat split; right; reflexivity.
  - intros H.
    apply (proj1 (C6_collaboration_iff_two_indicators accented_task accented_text
                    ltac:(by apply Forall_replicate) eq_refl)) in H.
    assert (∀ k, indicator_holds accented_text accented_task k →
                 k = HighPriority) as Honly.
    { intros [] Hk; [| | |done|].
      - unfold indicator_holds, accented_text in Hk.
        rewrite length_replicate in Hk. lia.
      - vm_compute in Hk. discriminate.
      - simpl in Hk. lia.
      - apply (keyword_in_any_case "collaboration") in Hk;
          [|vm_compute; repeat split; lia].
        vm_compute in Hk. discriminate. }
    destruct H as (i & j & Hne & Hi & Hj).
    apply Honly in Hi, Hj. congruence.
Defined.

(** ** Progress *)

Lemma progress_in_progress now task :
  status task = IN_PROGRESS →
  (0 < estimated_duration task)%Q →
  (_calculate_task_progress now task
   == Qmin 90 (((now - created_at task) / estimated_duration task) * 100))%Q.
Proof.
  intros Hs Hd. unfold _calculate_task_progress. rewrite Hs.
  apply Qlt_bool_iff in Hd. rewrite Hd. reflexivity.
Qed.

(** C9, as worded: every status other than completed and failed reports the
    time-based estimate.  A task that is assigned but not started, 40 seconds
    old with an estimate of 100, reports 0 and not 40. *)
Lemma C9_assigned_task_reports_zero :
  ¬ (_calculate_task_progress 40 assigned_task
     == progress_as_specified 40 assigned_task)%Q.
Proof.
  vm_compute. discriminate.
Qed.

(** C9, amended. For a task in the store, [GetTaskStatus] reports 100 when
    it is completed; min(90, elapsed/estimated_duration*100) when it is in
    progress with a positive estimate, and 50 when it is in progress without
    one; 0 in every other status (failed, pending, assigned, waiting,
    cancelled).  Elapsed time counts from created_at.  In progress with an
    estimate of 100, it reports 40 at elapsed 40 and 90 at elapsed 1000. *)
Theorem C9_reported_progress now (store : gmap string Task) id task :
  store !! id = Some task →
  ∃ p : Q,
    GetTaskStatus now store id
    = ReplyStatus id (status task) (assigned_agent task) p (result task)
    ∧ (status task = COMPLETED → p == 100)%Q
    ∧ (status task = IN_PROGRESS → (0 < estimated_duration task)%Q →
       p == Qmin 90 (((now - created_at task) / estimated_duration task) * 100))%Q
    ∧ (status task = IN_PROGRESS → (estimated_duration task <= 0)%Q → p == 50)%Q
    ∧ (status task ≠ COMPLETED → status task ≠ IN_PROGRESS → p == 0)%Q
    ∧ (status task = IN_PROGRESS → (estimated_duration task == 100)%Q →
       ((now - created_at task == 40)%Q → p == 40)%Q
       ∧ ((now - created_at task == 1000)%Q → p == 90)%Q).
Proof.
  intros Hl. exists (_calculate_task_progress now task).
  unfold GetTaskStatus. rewrite Hl. split; [reflexivity|].
  split; [|split; [|split; [|split]]].
  - intros Hs. unfold _calculate_task_progress. rewrite Hs. reflexivity.
  - apply progress_in_progress.
  - intros Hs Hd. unfold _calculate_task_progress. rewrite Hs.
    apply Qlt_bool_false_iff in Hd. rewrite Hd. reflexivity.
  - intros H1 H2. unfold _calculate_task_progress.
    destruct (status task); try done.
  - intros Hs Hd.
    assert (0 < estimated_duration task)%Q as Hpos by (rewrite Hd; reflexivity).
    rewrite (progress_in_progress now task Hs Hpos).
    split; intros He; rewrite He, Hd.
    + rewrite Q.min_r; [reflexivity|]. vm_compute. discriminate.
    + rewrite Q.min_l; [reflexivity|]. vm_compute. discriminate.
Qed.

Lemma C9_witness :
  ∃ p : Q,
    GetTaskStatus 40 {[ "task-3" := started_task ]} "task-3"
    = ReplyStatus "task-3" IN_PROGRESS (Some "A") p None
    ∧ (p == 40)%Q.
Proof.
  destruct (C9_reported_progress 40 {[ "task-3" := started_task ]} "task-3"
              started_task) as (p & Hp & _ & _ & _ & _ & H).
  { vm_compute. reflexivity. }
  exists p. split; [exact Hp|].
  apply H; reflexivity.
Defined.

(** ** Submission *)

Lemma TaskPriority_of_value_valid (n : Z) :
  (1 ≤ n ≤ 5)%Z → ∃ p, TaskPriority_of_value n = Some p ∧ TaskPriority_value p = n.
Proof.
  intros H. unfold TaskPriority_of_value.
  repeat match goal with
         | |- context [(n =? ?k)%Z] => destruct (Z.eqb_spec n k)
         end; try lia; subst; eauto.
Qed.

Lemma TaskPriority_of_value_invalid (n : Z) :
  ¬ (1 ≤ n ≤ 5)%Z → TaskPriority_of_value n = None.
Proof.
  intros H. unfold TaskPriority_of_value.
  repeat match goal with
         | |- context [(n =? ?k)%Z] => destruct (Z.eqb_spec n k)
         end; try lia; reflexivity.
Qed.

Lemma uuid_text_nonempty (u : UUID) : uuid_text u ≠ "".
Proof.
  intros H. pose proof (uuid_length u) as Hl. rewrite H in Hl. discriminate.
Qed.

(** C10. [SubmitTask] always returns a string (it is total: every exception
    of its body is turned into the empty string).  With a priority in 1..5
    and a context that is empty or parses, it returns the uuid it drew, which
    is not empty, the store holds under that id a pending task, and every
    other id is as before.  With a priority outside 1..5, or a non-empty
    context that does not parse, it returns the empty string and the store is
    unchanged. *)
Theorem C10_submit_task (json_loads : string → option Context) (u : UUID)
    (created updated : Q) (title description task_type : string)
    (n : Z) (context : string) (s : Store) :
  ((1 ≤ n ≤ 5)%Z →
   context = "" ∨ is_Some (json_loads context) →
   ∃ task,
     SubmitTask json_loads u created updated title description task_type
       n context s
     = (uuid_text u,
        mkStore (<[uuid_text u := task]> (tasks s))
          (spawned s ++ [SpawnSaveTask task;
                         SpawnQueuePut (priority task) task]))
     ∧ uuid_text u ≠ ""
     ∧ status task = PENDING
     ∧ task_id task = uuid_text u
     ∧ TaskPriority_value (priority task) = n)
  ∧ (¬ (1 ≤ n ≤ 5)%Z ∨ (context ≠ "" ∧ json_loads context = None) →
     SubmitTask json_loads u created updated title description task_type
       n context s
     = ("", s)).
Proof.
  unfold SubmitTask, submit_body. split.
  - intros Hp Hc.
    destruct (TaskPriority_of_value_valid _ Hp) as (p & -> & Hv).
    assert (∃ ctx, (if bool_decide (context ≠ "") then json_loads context
                    else Some empty_context) = Some ctx) as [ctx ->].
    { case_bool_decide as Hne; [|by eexists].
      destruct Hc as [?|[ctx Hctx]]; [done|by exists ctx]. }
    exists (mkTask (uuid_text u) title description task_type p PENDING created
              updated None None None None ctx None None 300 None None).
    split; [reflexivity|]. simpl.
    split; [apply uuid_text_nonempty|done].
  - intros [Hp|[Hne Hnone]].
    + by rewrite (TaskPriority_of_value_invalid _ Hp).
    + destruct (TaskPriority_of_value n); [|done].
      by rewrite (bool_decide_eq_true_2 _ Hne), Hnone.
Qed.

Lemma C10_witness :
  (∃ task,
     SubmitTask sample_json_loads sample_uuid 10 10 "Parser" "Write a parser"
       "development" 3 "{}" empty_store
     = (uuid_text sample_uuid,
        mkStore (<[uuid_text sample_uuid := task]> ∅)
          [SpawnSaveTask task; SpawnQueuePut (priority task) task])
     ∧ uuid_text sample_uuid ≠ ""
     ∧ status task = PENDING
     ∧ task_id task = uuid_text sample_uuid
     ∧ TaskPriority_value (priority task) = 3%Z)
  ∧ SubmitTask sample_json_loads sample_uuid 10 10 "Parser" "Write a parser"
      "development" 9 "{}" empty_store
    = ("", empty_store)
  ∧ SubmitTask sample_json_loads sample_uuid 10 10 "Parser" "Write a parser"
      "development" 3 "{oops" empty_store
    = ("", empty_store).
Proof.
  split; [|split].
  - apply (proj1 (C10_submit_task sample_json_loads sample_uuid 10 10 "Parser"
                    "Write a parser" "development" 3 "{}" empty_store)).
    + lia.
    + right. vm_compute. eauto.
  - apply (proj2 (C10_submit_task sample_json_loads sample_uuid 10 10 "Parser"
                    "Write a parser" "development" 9 "{}" empty_store)).
    left. lia.
  - apply (proj2 (C10_submit_task sample_json_loads sample_uuid 10 10 "Parser"
                    "Write a parser" "development" 3 "{oops" empty_store)).
    right. split; [discriminate|reflexivity].
Defined.

(** ** State and exceptions *)

Ltac se_unfold :=
  cbv beta iota zeta delta
    [bind ret raise get modify modify_task modify_agent assign_status get_task
     get_agent try_except try_finally lift save h_task h_agent status_history
     h_world fst snd].

Lemma try_except_total {S A} (c : SE S A) (handler : string → SE S A) :
  (∀ e s, ∃ a s', handler e s = (Ok a, s')) →
  ∀ s, ∃ a s', try_except c handler s = (Ok a, s').
Proof.
  intros H s. unfold try_except. destruct (c s) as [[a|e] s']; eauto.
Qed.

(** ** Assignment *)

Lemma assign_task_to_agent_spec env h :
  _assign_task_to_agent env h
  = (match db_error env DbAssignTask with
     | Some e => Exc e
     | None => match db_error env DbAssignAgent with
               | Some e => Exc e
               | None => Ok tt
               end
     end,
     mkHeap
       (set_updated_at (time_time env ClkAssign)
          (set_status ASSIGNED
             (set_assigned_agent (Some (agent_id (h_agent h))) (h_task h))))
       (take_on (task_id (h_task h)) (h_agent h))
       (status_history h ++ [ASSIGNED]) (h_world h)).
Proof.
  unfold _assign_task_to_agent. se_unfold.
  destruct (db_error env DbAssignTask); [reflexivity|].
  destruct (db_error env DbAssignAgent); reflexivity.
Qed.

(** ** Performance tracking *)

Lemma update_agent_performance_spec env success h :
  ∃ a1,
    _update_agent_performance env success h
    = (Ok tt, mkHeap (h_task h) a1 (status_history h) (h_world h))
    ∧ ((total_tasks_completed (h_agent h) + 1 = 0)%Z → a1 = h_agent h)
    ∧ ∀ d, actual_duration (h_task h) = Some d →
           performance_recorded success d (h_agent h) a1.
Proof.
  destruct h as [t a hist w]. unfold _update_agent_performance, performance_recorded.
  se_unfold.
  destruct (total_tasks_completed a + 1 =? 0)%Z eqn:Hz.
  - exists a. split; [reflexivity|]. split; [done|].
    intros d Hd. apply Z.eqb_eq in Hz. split; [by destruct a|done].
  - apply Z.eqb_neq in Hz.
    destruct (actual_duration t) as [d|] eqn:Hd; simpl.
    + destruct (Qeq_bool d 0) eqn:Hd0; simpl.
      * eexists. split; [destruct (db_error env DbMetric); reflexivity|].
        split; [done|]. intros d' [= <-]. rewrite Hd0.
        split; [by destruct a|done].
      * destruct (Qeq_bool (average_completion_time a) 0) eqn:Ha0; simpl;
          (eexists; split; [destruct (db_error env DbMetric); reflexivity|];
           split; [done|]; intros d' [= <-]; rewrite Hd0, ?Ha0;
           split; [by destruct a|done]).
    + eexists. split; [destruct (db_error env DbMetric); reflexivity|].
      split; [done|]. intros d' [=].
Qed.

(** ** Execution always hands back a result dict *)

Lemma execute_single_agent_task_total env task agent w :
  ∃ res w', _execute_single_agent_task env task agent w = (Ok res, w').
Proof.
  unfold _execute_single_agent_task.
  destruct (duckbot_ai env); [|by eexists _, _].
  apply try_except_total. intros e s. by eexists _, _.
Qed.

Lemma execute_collaborative_task_total env agents task agent w :
  ∃ res w', _execute_collaborative_task env agents task agent w = (Ok res, w').
Proof.
  unfold _execute_collaborative_task.
  apply try_except_total. intros e s. by eexists _, _.
Qed.

Lemma execution_total env agents task agent w :
  ∃ res w',
    (if _task_requires_collaboration task
     then _execute_collaborative_task env agents task agent
     else _execute_single_agent_task env task agent) w = (Ok res, w').
Proof.
  destruct (_task_requires_collaboration task).
  - apply execute_collaborative_task_total.
  - apply execute_single_agent_task_total.
Qed.

(** ** One execution, start to cleanup *)

Lemma task_requires_collaboration_set_status v task :
  _task_requires_collaboration (set_status v task)
  = _task_requires_collaboration task.
Proof.
  unfold _task_requires_collaboration, complexity_indicators, set_status.
  cbn [description context priority]. reflexivity.
Qed.

Ltac execute_task_failed env :=
  match goal with
  | |- context [_update_agent_performance env false ?hh] =>
      let a1 := fresh "a1" in
      let Hrec := fresh "Hrec" in
      destruct (update_agent_performance_spec env false hh)
        as (a1 & -> & _ & Hrec);
      exists false; do 3 eexists; exists (closing_saves env); eexists;
      (split;
       [unfold closing_saves; se_unfold; rewrite <- app_assoc;
        destruct (db_error env DbFinalTask);
        [reflexivity|destruct (db_error env DbFinalAgent); reflexivity]|]);
      (split; [split; [done|intros [? ?]; congruence]|]);
      (split; [reflexivity|]);
      (split; [by eexists|]);
      (split; [reflexivity|]);
      (split; [reflexivity|]);
      apply Hrec; reflexivity
  end.

Lemma execute_task_spec env agents h :
  ∃ (success : bool) (t' : Task) (a1 : Agent) (w' : World) (r : Res unit) (d : Q),
    _execute_task env agents h
    = (r, mkHeap t' (release a1)
            (status_history h
             ++ [IN_PROGRESS; if success then COMPLETED else FAILED]) w')
    ∧ (success = true
       ↔ db_error env DbStartTask = None ∧ db_error env DbStartAgent = None)
    ∧ status t' = (if success then COMPLETED else FAILED)
    ∧ (if success
       then error_message t' = error_message (h_task h)
            ∧ ∃ res,
                result t' = Some res
                ∧ (if _task_requires_collaboration (h_task h)
                   then _execute_collaborative_task env agents
                          (set_status IN_PROGRESS (h_task h))
                          (at_work (time_time env ClkStart) (h_agent h))
                   else _execute_single_agent_task env
                          (set_status IN_PROGRESS (h_task h))
                          (at_work (time_time env ClkStart) (h_agent h)))
                    (h_world h) = (Ok res, w')
       else is_Some (error_message t'))
    ∧ actual_duration t' = Some d
    ∧ d = (time_time env (if success then ClkEnd else ClkEndFailed)
           - time_time env ClkStart)%Q
    ∧ performance_recorded success d
        (at_work (time_time env ClkStart) (h_agent h)) a1.
Proof.
  destruct h as [t a hist w].
  unfold _execute_task. se_unfold.
  destruct (db_error env DbStartTask) as [e1|] eqn:E1;
    [|destruct (db_error env DbStartAgent) as [e2|] eqn:E2].
  - execute_task_failed env.
  - execute_task_failed env.
  - destruct (execution_total env agents (set_status IN_PROGRESS t)
                (at_work (time_time env ClkStart) a) w) as (res & w' & Hres).
    pose proof Hres as Hres'. unfold at_work in Hres'. rewrite Hres'. clear Hres'.
    match goal with
    | |- context [_update_agent_performance env true ?hh] =>
        destruct (update_agent_performance_spec env true hh)
          as (a1 & -> & _ & Hrec)
    end.
    exists true. do 3 eexists. exists (closing_saves env). eexists.
    split.
    { unfold closing_saves. se_unfold. rewrite <- app_assoc.
      destruct (db_error env DbFinalTask);
        [reflexivity|destruct (db_error env DbFinalAgent); reflexivity]. }
    split; [done|].
    split; [reflexivity|].
    rewrite task_requires_collaboration_set_status in Hres.
    split; [split; [reflexivity|exists res; split; [reflexivity|exact Hres]]|].
    split; [reflexivity|].
    split; [reflexivity|].
    apply Hrec. reflexivity.
Qed.

(** ** Load factor *)

Lemma performance_recorded_frame success d a a1 :
  performance_recorded success d a a1 →
  load_factor a1 = load_factor a
  ∧ total_tasks_completed a1 = total_tasks_completed a
  ∧ agent_status a1 = agent_status a
  ∧ current_task a1 = current_task a
  ∧ agent_id a1 = agent_id a.
Proof.
  intros [H _]. rewrite <- H. by destruct a1.
Qed.

Lemma apply_op_load_factor a op :
  load_factor (apply_op a op)
  = match op with
    | OpAssign _ _ _ _ => Qmin 1 (load_factor a + 0.3)
    | OpExecute _ _ _ _ _ => Qmax 0 (load_factor a - 0.3)
    end.
Proof.
  destruct op as [env task hist w|env agents task hist w]; simpl.
  - rewrite assign_task_to_agent_spec. reflexivity.
  - destruct (execute_task_spec env agents (mkHeap task a hist w))
      as (success & t' & a1 & w' & r & d & -> & _ & _ & _ & _ & _ & Hrec).
    apply performance_recorded_frame in Hrec as (Hl & _).
    simpl. rewrite Hl. reflexivity.
Qed.

Lemma clamp_above_in_range (x : Q) :
  (0 <= x <= 1)%Q → (0 <= Qmin 1 (x + 0.3) <= 1)%Q.
Proof.
  intros [H0 H1].
  destruct (Q.min_spec 1 (x + 0.3)) as [[? ->]|[? ->]]; lra.
Qed.

Lemma floor_below_in_range (x : Q) :
  (0 <= x <= 1)%Q → (0 <= Qmax 0 (x - 0.3) <= 1)%Q.
Proof.
  intros [H0 H1].
  destruct (Q.max_spec 0 (x - 0.3)) as [[? ->]|[? ->]]; lra.
Qed.

(** C8. Starting from a load factor in [0,1], after any sequence of
    assignments ([_assign_task_to_agent]) and executions with their cleanup
    ([_execute_task]), whatever the environment does, the load factor is in
    [0,1]; an assignment sets it to min(1, load+0.3), the cleanup to
    max(0, load-0.3). *)
Theorem C8_load_factor_stays_in_range (agent : Agent) (ops : list LoadOp) :
  (0 <= load_factor agent <= 1)%Q →
  (0 <= load_factor (foldl apply_op agent ops) <= 1)%Q
  ∧ ∀ a op,
      load_factor (apply_op a op)
      = match op with
        | OpAssign _ _ _ _ => Qmin 1 (load_factor a + 0.3)
        | OpExecute _ _ _ _ _ => Qmax 0 (load_factor a - 0.3)
        end.
Proof.
  intros H. split; [|apply apply_op_load_factor].
  revert agent H. induction ops as [|op ops IH]; intros agent H; simpl; [done|].
  apply IH. rewrite apply_op_load_factor.
  destruct op; [by apply clamp_above_in_range|by apply floor_below_in_range].
Qed.

Lemma C8_witness :
  (0 <= load_factor
          (foldl apply_op agent_A
             [OpAssign refusing_env coding_task [PENDING] empty_world;
              OpAssign refusing_env coding_task [PENDING] empty_world;
              OpAssign refusing_env coding_task [PENDING] empty_world;
              OpAssign refusing_env coding_task [PENDING] empty_world;
              OpExecute refusing_env [] coding_task [PENDING] empty_world])
   <= 1)%Q.
Proof.
  apply (C8_load_factor_stays_in_range agent_A).
  split; vm_compute; discriminate.
Defined.

(** ** Performance statistics *)

Lemma updated_success_rate_formula a success :
  (updated_success_rate a success
   == (success_rate a * inject_Z (total_tasks_completed a)
       + (if success then 1 else 0))
      / inject_Z (total_tasks_completed a + 1))%Q.
Proof.
  unfold updated_success_rate. destruct success; [reflexivity|].
  apply Qdiv_comp; [ring|reflexivity].
Qed.

Lemma performance_recorded_statistics success d a a1 :
  (0 ≤ total_tasks_completed a)%Z →
  performance_recorded success d a a1 →
  (success_rate a1
   == (success_rate a * inject_Z (total_tasks_completed a)
       + (if success then 1 else 0))
      / inject_Z (total_tasks_completed a + 1))%Q
  ∧ (¬ (d == 0)%Q → ¬ (average_completion_time a == 0)%Q →
     (average_completion_time a1
      == (average_completion_time a * inject_Z (total_tasks_completed a) + d)
         / inject_Z (total_tasks_completed a + 1))%Q)
  ∧ (¬ (d == 0)%Q → (average_completion_time a == 0)%Q →
     (average_completion_time a1 == d)%Q)
  ∧ ((d == 0)%Q →
     (average_completion_time a1 == average_completion_time a)%Q).
Proof.
  intros Hn [_ H]. destruct H as [Hrate Havg]; [lia|].
  split; [rewrite Hrate; apply updated_success_rate_formula|].
  rewrite Havg.
  destruct (Qeq_bool d 0) eqn:Hd;
    [apply Qeq_bool_iff in Hd|apply Qeq_bool_neq in Hd];
    (destruct (Qeq_bool (average_completion_time a) 0) eqn:Ha;
     [apply Qeq_bool_iff in Ha|apply Qeq_bool_neq in Ha]);
    repeat split; intros; try done; reflexivity.
Qed.

(** C7, as worded: the average is the running mean whenever the task has a
    duration.  An agent with two tasks behind it and a stored average of 0
    gets the duration itself (10), not (0*2+10)/3. *)
Lemma C7_zero_average_is_overwritten :
  ¬ (average_completion_time
       (h_agent (_execute_task ten_second_env [] assigned_heap).2)
     == (average_completion_time veteran * inject_Z (total_tasks_completed veteran)
         + 10) / inject_Z (total_tasks_completed veteran + 1))%Q.
Proof.
  vm_compute. discriminate.
Qed.

(** C7, amended. With prior count n >= 0, prior success rate s and prior
    average a: one call of [_update_agent_performance] for a task of
    duration d sets success_rate to (s*n + (1 if success else 0))/(n+1); it
    sets average_completion_time to (a*n + d)/(n+1) when d and a are both
    non-zero, to d when a is zero and d is not, and leaves it when d is
    zero.  A whole [_execute_task] records exactly one such outcome (success
    iff the task ends completed, d the measured duration) and leaves
    total_tasks_completed at n+1. *)
Theorem C7_performance_update (env : Env) (agents : list Agent) (h : Heap) :
  (0 ≤ total_tasks_completed (h_agent h))%Z →
  let a := h_agent h in
  let n := total_tasks_completed a in
  (∀ success d,
     actual_duration (h_task h) = Some d →
     let a1 := h_agent (_update_agent_performance env success h).2 in
     (success_rate a1
      == (success_rate a * inject_Z n + (if success then 1 else 0))
         / inject_Z (n + 1))%Q
     ∧ (¬ (d == 0)%Q → ¬ (average_completion_time a == 0)%Q →
        (average_completion_time a1
         == (average_completion_time a * inject_Z n + d) / inject_Z (n + 1))%Q)
     ∧ (¬ (d == 0)%Q → (average_completion_time a == 0)%Q →
        (average_completion_time a1 == d)%Q)
     ∧ ((d == 0)%Q → (average_completion_time a1 == average_completion_time a)%Q)
     ∧ total_tasks_completed a1 = n)
  ∧ (∃ (success : bool) (d : Q),
       let final := (_execute_task env agents h).2 in
       (success = true ↔ status (h_task final) = COMPLETED)
       ∧ actual_duration (h_task final) = Some d
       ∧ total_tasks_completed (h_agent final) = (n + 1)%Z
       ∧ (success_rate (h_agent final)
          == (success_rate a * inject_Z n + (if success then 1 else 0))
             / inject_Z (n + 1))%Q
       ∧ (¬ (d == 0)%Q → ¬ (average_completion_time a == 0)%Q →
          (average_completion_time (h_agent final)
           == (average_completion_time a * inject_Z n + d) / inject_Z (n + 1))%Q)
       ∧ (¬ (d == 0)%Q → (average_completion_time a == 0)%Q →
          (average_completion_time (h_agent final) == d)%Q)
       ∧ ((d == 0)%Q →
          (average_completion_time (h_agent final)
           == average_completion_time a)%Q)).
Proof.
  intros Hn a n. split.
  - intros success d Hd a1.
    destruct (update_agent_performance_spec env success h) as (a' & Heq & _ & Hrec).
    subst a1. rewrite Heq. simpl.
    specialize (Hrec d Hd).
    destruct (performance_recorded_statistics _ _ _ _ Hn Hrec) as (H1 & H2 & H3 & H4).
    apply performance_recorded_frame in Hrec as (_ & Ht & _).
    repeat split; done.
  - destruct (execute_task_spec env agents h)
      as (success & t' & a1 & w' & r & d & Heq & _ & Hst & _ & Hd & _ & Hrec).
    exists success, d. rewrite Heq. simpl.
    assert (0 ≤ total_tasks_completed (at_work (time_time env ClkStart) (h_agent h)))%Z
      as Hn' by done.
    destruct (performance_recorded_statistics _ _ _ _ Hn' Hrec) as (H1 & H2 & H3 & H4).
    apply performance_recorded_frame in Hrec as (_ & Ht & _).
    split; [rewrite Hst; destruct success; split; done|].
    split; [done|].
    split; [rewrite Ht; reflexivity|].
    repeat split; done.
Qed.

Lemma C7_witness :
  ∃ (success : bool) (d : Q),
    let final := (_execute_task ten_second_env [] assigned_heap).2 in
    (success = true ↔ status (h_task final) = COMPLETED)
    ∧ actual_duration (h_task final) = Some d
    ∧ total_tasks_completed (h_agent final) = 3%Z
    ∧ (success_rate (h_agent final)
       == (0.5 * 2 + (if success then 1 else 0)) / 3)%Q.
Proof.
  destruct (C7_performance_update ten_second_env [] assigned_heap)
    as [_ (success & d & H1 & H2 & H3 & H4 & _)].
  { vm_compute. discriminate. }
  exists success, d. repeat split; try apply H1; try exact H2; try exact H3.
  exact H4.
Defined.

(** ** The task state machine *)

Lemma process_task_assignment_history env clock agents task w :
  match _process_task_assignment env clock agents task [status task] w with
  | Launched h => status_history h = [status task; ASSIGNED]
  | Requeued => True
  | AssignmentFailed _ h => status_history h = [status task; ASSIGNED; FAILED]
  end.
Proof.
  unfold _process_task_assignment.
  destruct (_select_best_agent clock agents task) as [best|]; [|done].
  rewrite assign_task_to_agent_spec.
  destruct (db_error env DbAssignTask) as [e|];
    [|destruct (db_error env DbAssignAgent) as [e|]];
    se_unfold; try destruct (db_error env DbAssignFailed); reflexivity.
Qed.

Lemma run_task_observed env attempts task w :
  observed_statuses task (run_task env attempts task w)
  ∈ [ [status task];
      [status task; ASSIGNED; FAILED];
      [status task; ASSIGNED; IN_PROGRESS; COMPLETED];
      [status task; ASSIGNED; IN_PROGRESS; FAILED] ].
Proof.
  induction attempts as [|attempt later IH]; simpl; [set_solver|].
  pose proof (process_task_assignment_history env (score_clock attempt)
                (agents_at_dispatch attempt) task w) as Hp.
  destruct (_process_task_assignment env (score_clock attempt)
              (agents_at_dispatch attempt) task [status task] w)
    as [h| |r h].
  - destruct (execute_task_spec env (agents_at_execution attempt) h)
      as (success & t' & a1 & w' & r & d & -> & _).
    simpl. rewrite Hp. destruct success; set_solver.
  - exact IH.
  - simpl. rewrite Hp. set_solver.
Qed.

(** C2, as worded: failed is only entered from in_progress.  When the first
    database write of the assignment raises, the task goes
    pending, assigned, failed. *)
Lemma C2_assignment_failure_skips_in_progress :
  observed_statuses coding_task
    (run_task locked_env [one_attempt] coding_task empty_world)
  = [PENDING; ASSIGNED; FAILED]
  ∧ is_path specified_step
      (observed_statuses coding_task
         (run_task locked_env [one_attempt] coding_task empty_world))
    = false.
Proof.
  split; vm_compute; reflexivity.
Qed.

(** C2, amended. The statuses a submitted task takes, whatever the scheduler
    and the environment do, form a path that starts at pending and follows
    pending → assigned → in_progress → completed | failed, or
    assigned → failed; pending is only ever followed by assigned. *)
Theorem C2_status_path (env : Env) (attempts : list Attempt) (task : Task)
    (w : World) :
  status task = PENDING →
  let observed := observed_statuses task (run_task env attempts task w) in
  is_path observed_step observed = true
  ∧ (∀ (i : nat) s,
       observed !! i = Some PENDING → observed !! S i = Some s → s = ASSIGNED)
  ∧ (observed = [PENDING]
     ∨ observed = [PENDING; ASSIGNED; FAILED]
     ∨ observed = [PENDING; ASSIGNED; IN_PROGRESS; COMPLETED]
     ∨ observed = [PENDING; ASSIGNED; IN_PROGRESS; FAILED]).
Proof.
  intros Hs observed.
  pose proof (run_task_observed env attempts task w) as H.
  fold observed in H. rewrite Hs in H.
  assert (observed = [PENDING]
          ∨ observed = [PENDING; ASSIGNED; FAILED]
          ∨ observed = [PENDING; ASSIGNED; IN_PROGRESS; COMPLETED]
          ∨ observed = [PENDING; ASSIGNED; IN_PROGRESS; FAILED]) as Hcases
    by set_solver.
  split; [|split; [|exact Hcases]].
  - destruct Hcases as [->|[->|[->| ->]]]; reflexivity.
  - intros i s.
    destruct Hcases as [->|[->|[->| ->]]];
      destruct i as [|[|[|[|i]]]]; simpl; congruence.
Qed.

Lemma C2_witness :
  is_path observed_step
    (observed_statuses coding_task
       (run_task locked_env [one_attempt] coding_task empty_world))
  = true.
Proof.
  apply (C2_status_path locked_env [one_attempt] coding_task empty_world).
  reflexivity.
Defined.

(** ** Collaboration *)

Lemma grows_refl w : grows w w.
Proof.
  split; [done|]. exists []. by rewrite app_nil_r.
Qed.

Lemma grows_trans w1 w2 w3 : grows w1 w2 → grows w2 w3 → grows w1 w3.
Proof.
  intros [H1 [m1 E1]] [H2 [m2 E2]]. split; [by eauto|].
  exists (m1 ++ m2). by rewrite E2, E1, app_assoc.
Qed.

Lemma grows_request w site req :
  grows w (mkWorld (collaborations w) (requests w ++ [(site, req)])).
Proof.
  split; [done|]. by eexists.
Qed.

Lemma grows_alter w f k :
  grows w (mkWorld (alter f k (collaborations w)) (requests w)).
Proof.
  split.
  - intros j [c Hc]. simpl. rewrite lookup_alter. case_decide; [|by eexists].
    subst. rewrite Hc. by eexists.
  - exists []. simpl. by rewrite app_nil_r.
Qed.


Lemma enhanced_request_spec env ai site req w :
  duckbot_ai env = Some ai →
  enhanced_request env site req w
  = (match ai site with Returns r => Ok r | Raises msg => Exc msg end,
     mkWorld (collaborations w) (requests w ++ [(site, req)])).
Proof.
  intros H. unfold enhanced_request. rewrite H. se_unfold.
  destruct (ai site); reflexivity.
Qed.

Lemma execute_subtask_spec env ai i subtask agent w :
  duckbot_ai env = Some ai →
  ∃ req,
    _execute_subtask env i subtask agent w
    = (Ok (subtask_outcome ai i),
       mkWorld (collaborations w) (requests w ++ [(AiSubtask i, req)])).
Proof.
  intros H. unfold _execute_subtask, subtask_outcome. eexists.
  unfold try_except, bind. rewrite (enhanced_request_spec env ai) by done.
  destruct (ai (AiSubtask i)); reflexivity.
Qed.

Lemma gather_subtasks env ai (l : list (Subtask * Agent)) (k : nat) w :
  duckbot_ai env = Some ai →
  ∃ w',
    gather
      (imap (λ i '(subtask, agent), _execute_subtask env (k + i) subtask agent) l) w
    = (Ok ((λ i, GValue (subtask_outcome ai i)) <$> seq k (length l)), w')
    ∧ grows w w'.
Proof.
  intros H. revert k w. induction l as [|[subtask agent] l IH]; intros k w.
  - exists w. split; [reflexivity|apply grows_refl].
  - rewrite imap_cons. simpl gather.
    destruct (execute_subtask_spec env ai (k + 0) subtask agent w H) as [req Hreq].
    destruct (IH (S k) (mkWorld (collaborations w)
                          (requests w ++ [(AiSubtask (k + 0), req)])))
      as (w' & Hg & Hgrow).
    exists w'. split.
    + unfold bind, capture. rewrite Hreq.
      erewrite imap_ext; [rewrite Hg|].
      * simpl. by rewrite Nat.add_0_r.
      * intros i [st ag] _. simpl. f_equal. lia.
    + eapply grows_trans; [apply grows_request|exact Hgrow].
Qed.

Lemma parse_subtasks_length text (agents : list Agent) :
  length (_parse_subtasks text agents) = length agents.
Proof.
  unfold _parse_subtasks.
  destruct (foldl parse_line ([], None) (split_lines text)) as [subs cur].
  rewrite length_take, length_app, length_fmap, length_drop. lia.
Qed.

Lemma fan_out_gathered env ai text (others : list Agent) w :
  duckbot_ai env = Some ai →
  ∃ w',
    gather (fan_out env (_parse_subtasks text others) others) w
    = (Ok (gathered_outcomes ai (length others)), w')
    ∧ grows w w'.
Proof.
  intros H. unfold fan_out, gathered_outcomes.
  destruct (gather_subtasks env ai (zip (_parse_subtasks text others) others) 0 w H)
    as (w' & Hg & Hgrow).
  exists w'. split; [|done].
  rewrite length_zip, parse_subtasks_length, Nat.min_id in Hg.
  exact Hg.
Qed.

Lemma roles_kept (others : list Agent) (roles : gmap string string) k :
  is_Some (roles !! k) →
  is_Some (foldl (λ roles agent, <[agent_id agent := role_of (agent_type agent)]> roles)
             roles others !! k).
Proof.
  revert roles. induction others as [|a others IH]; intros roles H; simpl; [done|].
  apply IH. rewrite lookup_insert. case_decide; [by eexists|done].
Qed.

Lemma roles_cover (others : list Agent) (roles : gmap string string) a :
  a ∈ others →
  is_Some (foldl (λ roles agent, <[agent_id agent := role_of (agent_type agent)]> roles)
             roles others !! agent_id a).
Proof.
  revert roles. induction others as [|b others IH]; intros roles H; simpl.
  - by apply elem_of_nil in H.
  - apply elem_of_cons in H as [->|H].
    + apply roles_kept. rewrite lookup_insert_eq. by eexists.
    + by apply IH.
Qed.

Lemma assign_collaboration_roles_spec {S} first others (s : S) :
  ∃ roles,
    _assign_collaboration_roles (first :: others) s = (Ok roles, s)
    ∧ ∀ a, a ∈ first :: others → is_Some (roles !! agent_id a).
Proof.
  eexists. split; [reflexivity|].
  intros a Ha. apply elem_of_cons in Ha as [->|Ha].
  - apply roles_kept. rewrite lookup_insert_eq. by eexists.
  - by apply roles_cover.
Qed.

Lemma available_agents_of_ok (roles : gmap string string) (agents : list Agent) :
  (∀ a, a ∈ agents → is_Some (roles !! agent_id a)) →
  ∃ infos, ∀ w, available_agents_of roles agents w = (Ok infos, w).
Proof.
  induction agents as [|a agents IH]; intros H.
  - by exists [].
  - destruct (H a) as [role Hrole]; [set_solver|].
    destruct IH as [infos Hinfos]; [set_solver|].
    eexists. intros w. simpl. rewrite Hrole. unfold bind. rewrite Hinfos.
    reflexivity.
Qed.

Lemma gathered_outcomes_length ai n : length (gathered_outcomes ai n) = n.
Proof.
  unfold gathered_outcomes. by rewrite length_fmap, length_seq.
Qed.

Lemma gathered_outcomes_lookup ai n (i : nat) :
  (i < n)%nat →
  gathered_outcomes ai n !! i = Some (GValue (subtask_outcome ai i)).
Proof.
  intros H. unfold gathered_outcomes.
  rewrite list_lookup_fmap, lookup_seq_lt by done. reflexivity.
Qed.

(** Every write of a collaboration record raises before the database is
    reached. *)
Lemma save_collaboration_raises {S} env site collaboration (s : S) :
  _save_collaboration env site collaboration s = (Exc shared_context_refused, s).
Proof. reflexivity. Qed.

Lemma log_collaboration_communication_spec env collaboration message_type content w :
  ∃ f,
    _log_collaboration_communication env collaboration message_type content w
    = (Exc shared_context_refused,
       mkWorld (alter f (collaboration_id collaboration) (collaborations w))
         (requests w)).
Proof.
  eexists. unfold _log_collaboration_communication, modify_collaboration.
  se_unfold. rewrite save_collaboration_raises. reflexivity.
Qed.

(** A decomposition that succeeds: the subtasks are run, their failures kept
    as values, the integration request is sent, and then the write of the
    log entry raises, or the integration request did. *)
Lemma hierarchical_collaboration_spec env ai collaboration task primary others
    w dr text :
  duckbot_ai env = Some ai →
  (∀ a, a ∈ primary :: others →
        is_Some (agent_roles (shared_context collaboration) !! agent_id a)) →
  ai AiDecompose = Returns dr →
  resp_success dr = true →
  resp_result dr = Some (PContent text) →
  ∃ w',
    _execute_hierarchical_collaboration env collaboration task (primary :: others) w
    = (Ok (mkResultDict (Some false) None
             (Some match ai AiIntegrate with
                   | Returns _ => shared_context_refused
                   | Raises msg => msg
                   end)
             None (Some "hierarchical_collaboration") None None None), w')
    ∧ grows w w'
    ∧ (AiIntegrate,
       mkRequest integrate_prompt
         (IntegrationContext (description task)
            (integration_entries others (gathered_outcomes ai (length others))))
         "reasoning") ∈ requests w'.
Proof.
  intros Hai Hroles Hd Hs Hr.
  destruct (available_agents_of_ok _ _ Hroles) as [infos Hinfos].
  unfold _execute_hierarchical_collaboration.
  se_unfold. rewrite Hinfos. cbv beta iota.
  rewrite (enhanced_request_spec env ai) by done. rewrite Hd. cbv beta iota.
  rewrite Hs. cbv beta iota delta [negb]. rewrite Hr. cbv beta iota.
  match goal with
  | |- context [gather (fan_out env ?st ?o) ?ww] =>
      destruct (fan_out_gathered env ai text o ww Hai) as (w3 & Hg & Hgrow3)
  end.
  rewrite Hg. cbv beta iota.
  rewrite (enhanced_request_spec env ai) by done.
  assert (grows w w3) as Hgrow.
  { eapply grows_trans; [apply grows_request|exact Hgrow3]. }
  set (request := (AiIntegrate, _)).
  assert (request ∈ requests w3 ++ [request]) as Hin by set_solver.
  destruct (ai AiIntegrate) as [fr|msg]; cbv beta iota.
  - match goal with
    | |- context [_log_collaboration_communication env ?c ?m ?x ?ww] =>
        destruct (log_collaboration_communication_spec env c m x ww) as [f ->]
    end.
    cbv beta iota.
    eexists. split; [reflexivity|]. split; [|exact Hin].
    eapply grows_trans; [exact Hgrow|].
    eapply grows_trans; [apply grows_request|apply grows_alter].
  - eexists. split; [reflexivity|]. split; [|exact Hin].
    eapply grows_trans; [exact Hgrow|apply grows_request].
Qed.

(** [_execute_collaborative_task] registers the record and stops at its
    first write. *)
Lemma execute_collaborative_task_spec env agents task primary w :
  ∃ roles,
    _assign_collaboration_roles
      (primary :: _select_collaboration_agents agents task primary) w
    = (Ok roles, w)
    ∧ _execute_collaborative_task env agents task primary w
      = (Ok (refused_result "collaborative"),
         mkWorld
           (<[collaboration_uuid env :=
                new_collaboration env task primary
                  (_select_collaboration_agents agents task primary) roles]>
              (collaborations w))
           (requests w)).
Proof.
  destruct (assign_collaboration_roles_spec (S := World) primary
              (_select_collaboration_agents agents task primary) w)
    as (roles & Hroles & _).
  exists roles. split; [exact Hroles|].
  unfold _execute_collaborative_task.
  se_unfold. rewrite Hroles. cbv beta iota.
  rewrite save_collaboration_raises. reflexivity.
Qed.

(** C4. What the code does where the specification describes a collaboration
    that tolerates failing subtasks.  [_execute_collaborative_task] registers
    the record and then fails at its first write, in every environment: the
    shared context holds the task as a dict whose priority and status are
    enumeration members, which [json.dumps] refuses.  No request is sent (no
    decomposition, no subtask, no integration), the dict returned says
    success false and holds no subtask results, and the record stays active.
    [_execute_hierarchical_collaboration], called on its own on such a
    record after a successful decomposition, does keep each subtask failure
    as a value and does send the integration request over all of them, but
    the write of the log entry raises for the same reason: it returns a
    failure dict without the integrated result and the subtask values. *)
Theorem C4_collaboration_fails_at_its_first_write :
  (∀ env agents task primary w,
     ∃ res w' c,
       _execute_collaborative_task env agents task primary w = (Ok res, w')
       ∧ requests w' = requests w
       ∧ rd_success res = Some false
       ∧ rd_error res
         = Some "Object of type TaskPriority is not JSON serializable"
       ∧ rd_result res = None
       ∧ rd_subtask_results res = None
       ∧ collaborations w' !! collaboration_uuid env = Some c
       ∧ collab_status c = "active")
  ∧ (∀ env ai collaboration task primary others w dr text,
       duckbot_ai env = Some ai →
       (∀ a, a ∈ primary :: others →
             is_Some (agent_roles (shared_context collaboration) !! agent_id a)) →
       ai AiDecompose = Returns dr →
       resp_success dr = true →
       resp_result dr = Some (PContent text) →
       let outcomes := gathered_outcomes ai (length others) in
       let entries := integration_entries others outcomes in
       ∃ res w',
         _execute_hierarchical_collaboration env collaboration task
           (primary :: others) w = (Ok res, w')
         ∧ length entries = length others
         ∧ (∀ i : nat, (i < length others)%nat →
              match ai (AiSubtask i) with
              | Raises msg =>
                  outcomes !! i = Some (GValue (mkResponse false None (Some msg)))
              | Returns r => outcomes !! i = Some (GValue r)
              end)
         ∧ (AiIntegrate,
            mkRequest integrate_prompt
              (IntegrationContext (description task) entries) "reasoning")
           ∈ requests w'
         ∧ rd_success res = Some false
         ∧ rd_result res = None
         ∧ rd_subtask_results res = None
         ∧ (∀ fr, ai AiIntegrate = Returns fr →
                  rd_error res
                  = Some "Object of type TaskPriority is not JSON serializable")).
Proof.
  split.
  - intros env agents task primary w.
    destruct (execute_collaborative_task_spec env agents task primary w)
      as (roles & _ & Heq).
    eexists _, _, _. split; [exact Heq|].
    repeat split; try reflexivity.
    + simpl. by rewrite lookup_insert_eq.
    + reflexivity.
  - intros env ai collaboration task primary others w dr text Hai Hroles Hd Hs Hr
      outcomes entries.
    destruct (hierarchical_collaboration_spec env ai collaboration task primary
                others w dr text Hai Hroles Hd Hs Hr) as (w' & Heq & _ & Hin).
    eexists _, w'. split; [exact Heq|].
    split.
    { unfold entries, integration_entries, outcomes.
      rewrite length_zip_with, gathered_outcomes_length. lia. }
    split.
    { intros i Hi. unfold outcomes.
      rewrite gathered_outcomes_lookup by done. unfold subtask_outcome.
      destruct (ai (AiSubtask i)); reflexivity. }
    split; [exact Hin|].
    repeat split. intros fr Hfr. simpl. by rewrite Hfr.
Qed.

Lemma C4_witness :
  (∃ res w' c,
     _execute_collaborative_task crashing_env [coordinator; agent_A] release_task
       coordinator empty_world = (Ok res, w')
     ∧ requests w' = []
     ∧ rd_success res = Some false
     ∧ rd_subtask_results res = None
     ∧ collaborations w' !! "collab-1" = Some c
     ∧ collab_status c = "active")
  ∧ (∃ res w',
       _execute_hierarchical_collaboration crashing_env
         (new_collaboration crashing_env release_task coordinator [agent_A]
            (<["A" := "developer"]>
               (<["coordination_master" := "coordinator"]> ∅)))
         release_task [coordinator; agent_A] empty_world = (Ok res, w')
       ∧ (AiIntegrate,
          mkRequest integrate_prompt
            (IntegrationContext (description release_task)
               [mkIntegrationEntry "A"
                  (EntryResult (mkResponse false None (Some "subtask crashed")))])
            "reasoning") ∈ requests w'
       ∧ rd_success res = Some false
       ∧ rd_subtask_results res = None
       ∧ rd_error res
         = Some "Object of type TaskPriority is not JSON serializable").
Proof.
  split.
  - destruct (proj1 C4_collaboration_fails_at_its_first_write crashing_env
                [coordinator; agent_A] release_task coordinator empty_world)
      as (res & w' & c & Heq & Hreq & Hs & _ & _ & Hnone & Hc & Hactive).
    exists res, w', c. by repeat split.
  - destruct (proj2 C4_collaboration_fails_at_its_first_write crashing_env
                crashing_ai
                (new_collaboration crashing_env release_task coordinator [agent_A]
                   (<["A" := "developer"]>
                      (<["coordination_master" := "coordinator"]> ∅)))
                release_task coordinator [agent_A] empty_world
                (mkResponse true (Some (PContent "- write the code")) None)
                "- write the code" eq_refl)
      as (res & w' & Heq & _ & _ & Hin & Hs & _ & Hnone & Herr);
      [|reflexivity|reflexivity|reflexivity|].
    + intros a Ha. rewrite !elem_of_cons, elem_of_nil in Ha.
      destruct Ha as [->|[->|[]]]; vm_compute; by eexists.
    + exists res, w'. split; [exact Heq|]. split; [exact Hin|].
      split; [exact Hs|]. split; [exact Hnone|].
      by apply (Herr (mkResponse true (Some (PContent "integrated")) None)).
Defined.

(** ** Execution failures *)

Lemma execute_single_agent_task_failure env ai task agent w :
  duckbot_ai env = Some ai →
  ∃ w',
    match ai AiSingle with
    | Raises msg =>
        _execute_single_agent_task env task agent w
        = (Ok (mkResultDict (Some false) None (Some msg) (Some (agent_id agent))
                 None None None None), w')
    | Returns r =>
        resp_success r = false →
        _execute_single_agent_task env task agent w
        = (Ok (mkResultDict (Some false) None
                 (Some (default "Unknown error" (resp_error r)))
                 (Some (agent_id agent)) None None None None), w')
    end.
Proof.
  intros Hai. unfold _execute_single_agent_task. rewrite Hai.
  unfold try_except, bind. rewrite (enhanced_request_spec env ai) by done.
  eexists. destruct (ai AiSingle) as [r|msg]; [|reflexivity].
  intros ->. reflexivity.
Qed.

(** C3. What the code does where the specification asks for a failed
    task: once the two start-up writes went through, [_execute_task] ends the
    task as completed and leaves error_message as it was, whatever the
    execution reported; the failure only shows inside the stored result
    (success false and the error text).  This holds for a single-agent
    execution that raised or reported failure, and for every task routed to
    a collaboration: the collaboration fails at its first write, before the
    decomposition call is made, and sends no request.  The agent is released
    (idle, no current task). *)
Theorem C3_execution_failure_ends_completed env ai agents h :
  duckbot_ai env = Some ai →
  db_error env DbStartTask = None →
  db_error env DbStartAgent = None →
  let final := (_execute_task env agents h).2 in
  status (h_task final) = COMPLETED
  ∧ error_message (h_task final) = error_message (h_task h)
  ∧ agent_status (h_agent final) = "idle"
  ∧ current_task (h_agent final) = None
  ∧ (_task_requires_collaboration (h_task h) = false →
     match ai AiSingle with
     | Raises msg =>
         result (h_task final)
         = Some (mkResultDict (Some false) None (Some msg)
                   (Some (agent_id (h_agent h))) None None None None)
     | Returns r =>
         resp_success r = false →
         result (h_task final)
         = Some (mkResultDict (Some false) None
                   (Some (default "Unknown error" (resp_error r)))
                   (Some (agent_id (h_agent h))) None None None None)
     end)
  ∧ (_task_requires_collaboration (h_task h) = true →
     result (h_task final)
     = Some (mkResultDict (Some false) None
               (Some "Object of type TaskPriority is not JSON serializable")
               None (Some "collaborative") None None None)
     ∧ requests (h_world final) = requests (h_world h)).
Proof.
  intros Hai H1 H2 final.
  destruct (execute_task_spec env agents h)
    as (success & t' & a1 & w' & r & d & Heq & Hsucc & Hst & Hok & _ & _ & _).
  assert (success = true) as -> by (by apply Hsucc).
  destruct Hok as (Herr & res & Hres & Hrun).
  subst final. rewrite Heq. simpl.
  split; [exact Hst|]. split; [exact Herr|].
  split; [reflexivity|]. split; [reflexivity|].
  split.
  - intros Hsingle. rewrite Hsingle in Hrun. rewrite Hres.
    destruct (execute_single_agent_task_failure env ai
                (set_status IN_PROGRESS (h_task h))
                (at_work (time_time env ClkStart) (h_agent h)) (h_world h) Hai)
      as [w'' Hfail].
    destruct (ai AiSingle) as [resp|msg].
    + intros Hs. rewrite (Hfail Hs) in Hrun. by injection Hrun as <- _.
    + rewrite Hfail in Hrun. by injection Hrun as <- _.
  - intros Hcollab. rewrite Hcollab in Hrun. rewrite Hres.
    destruct (execute_collaborative_task_spec env agents
                (set_status IN_PROGRESS (h_task h))
                (at_work (time_time env ClkStart) (h_agent h)) (h_world h))
      as (roles & _ & Hfail).
    rewrite Hfail in Hrun. injection Hrun as <- <-. by split.
Qed.

Lemma C3_witness :
  (let final := (_execute_task raising_env [] assigned_heap).2 in
   status (h_task final) = COMPLETED
   ∧ error_message (h_task final) = None
   ∧ result (h_task final)
     = Some (mkResultDict (Some false) None (Some "connection reset")
               (Some "A") None None None None))
  ∧ (let final := (_execute_task crashing_env [coordinator; agent_A] release_heap).2 in
     status (h_task final) = COMPLETED
     ∧ error_message (h_task final) = None
     ∧ result (h_task final)
       = Some (mkResultDict (Some false) None
                 (Some "Object of type TaskPriority is not JSON serializable")
                 None (Some "collaborative") None None None)
     ∧ requests (h_world final) = []).
Proof.
  split.
  - destruct (C3_execution_failure_ends_completed raising_env
                (λ _, Raises "connection reset") [] assigned_heap
                eq_refl eq_refl eq_refl) as (H1 & H2 & _ & _ & H3 & _).
    split; [exact H1|]. split; [exact H2|].
    apply H3. vm_compute. reflexivity.
  - destruct (C3_execution_failure_ends_completed crashing_env crashing_ai
                [coordinator; agent_A] release_heap eq_refl eq_refl eq_refl)
      as (H1 & H2 & _ & _ & _ & H3).
    split; [exact H1|]. split; [exact H2|].
    apply H3. vm_compute. reflexivity.
Defined.

(** * Further properties of the coordinator *)

(** ** Selection *)

Lemma score_agents_length clock k task l :
  length (score_agents clock k task l) = length l.
Proof.
  revert k. induction l as [|a l IH]; intros k; simpl; [done|]. by rewrite IH.
Qed.

Lemma select_best_agent_none clock agents task :
  _select_best_agent clock agents task = None
  ↔ ∀ a, a ∈ agents → is_available task a = false.
Proof.
  unfold _select_best_agent.
  destruct (List.filter (is_available task) agents) as [|a0 avail] eqn:Hf.
  - split; [|done]. intros _ a Ha.
    destruct (is_available task a) eqn:Hav; [|done].
    assert (In a (List.filter (is_available task) agents)) as Hin.
    { apply filter_In. split; [by apply list_elem_of_In|done]. }
    rewrite Hf in Hin. destruct Hin.
  - assert (In a0 (List.filter (is_available task) agents)) as Hin
      by (rewrite Hf; by left).
    apply filter_In in Hin as [Hin Hav].
    destruct (sort_desc (score_agents clock 0 task (a0 :: avail)))
      as [|best rest] eqn:Hs.
    + apply (f_equal length) in Hs.
      rewrite sort_desc_length, score_agents_length in Hs. discriminate.
    + split; [done|]. intros H.
      rewrite (H a0) in Hav; [done|by apply list_elem_of_In].
Qed.

(** X1. [_select_best_agent] returns no agent exactly when no agent passes
    its availability filter: whenever some agent is idle, below the load
    threshold and able to handle the task, one is selected. *)
Theorem X1_select_best_agent_none_iff clock agents task :
  _select_best_agent clock agents task = None
  ↔ ∀ a, a ∈ agents → is_available task a = false.
Proof.
  apply select_best_agent_none.
Qed.

Lemma half_le_ratio (o n : nat) :
  n ≠ 0%nat → (0.5 <= Qof_nat o / Qof_nat n)%Q ↔ (n ≤ 2 * o)%nat.
Proof.
  intros Hn. destruct n as [|n]; [done|].
  unfold Qle, Qdiv, Qmult, Qinv, Qof_nat, inject_Z. simpl. lia.
Qed.

Lemma overlap_count_all (caps req : list string) :
  (∀ c, c ∈ req → c ∈ caps) → overlap_count caps req = distinct_count req.
Proof.
  intros H. unfold overlap_count, distinct_count. f_equal. set_solver.
Qed.

Lemma overlap_count_none (caps req : list string) :
  (∀ c, c ∈ req → c ∉ caps) → overlap_count caps req = 0%nat.
Proof.
  intros H. unfold overlap_count. apply size_empty_iff. set_solver.
Qed.

(** X2. For a task that requires capabilities, an agent qualifies exactly
    when the distinct required capabilities it holds are at least half of
    the distinct required ones; its type plays no part.  So an agent holding
    all of them always qualifies, and an agent holding none of them never
    does, a coordination agent included. *)
Theorem X2_capability_match agent task :
  required_capabilities (context task) ≠ [] →
  let required := required_capabilities (context task) in
  (_agent_can_handle_task agent task = true
   ↔ (distinct_count required ≤ 2 * overlap_count (capabilities agent) required)%nat)
  ∧ ((∀ c, c ∈ required → c ∈ capabilities agent) →
     _agent_can_handle_task agent task = true)
  ∧ ((∀ c, c ∈ required → c ∉ capabilities agent) →
     _agent_can_handle_task agent task = false).
Proof.
  intros Hne required.
  pose proof (distinct_count_nonempty _ Hne) as Hn. fold required in Hn.
  assert (_agent_can_handle_task agent task = true
          ↔ (distinct_count required
             ≤ 2 * overlap_count (capabilities agent) required)%nat) as Hiff.
  { unfold _agent_can_handle_task. fold required.
    rewrite (bool_decide_eq_true_2 _ Hne), (bool_decide_eq_true_2 _ Hn).
    rewrite Qle_bool_iff. by apply half_le_ratio. }
  split; [exact Hiff|]. split.
  - intros H. apply Hiff. rewrite (overlap_count_all _ _ H). lia.
  - intros H. apply not_true_is_false. rewrite Hiff.
    rewrite (overlap_count_none _ _ H). lia.
Qed.

Lemma X2_witness :
  _agent_can_handle_task agent_A coding_task = true
  ∧ _agent_can_handle_task coordinator coding_task = false.
Proof.
  destruct (X2_capability_match agent_A coding_task) as (_ & H & _); [done|].
  destruct (X2_capability_match coordinator coding_task) as (_ & _ & H'); [done|].
  split.
  - apply H. vm_compute. set_solver.
  - apply H'. vm_compute. set_solver.
Defined.

Lemma ratio_in_unit (o n : nat) :
  (o ≤ n)%nat → n ≠ 0%nat → (0 <= Qof_nat o / Qof_nat n <= 1)%Q.
Proof.
  intros Ho Hn. destruct n as [|n]; [done|].
  unfold Qle, Qdiv, Qmult, Qinv, Qof_nat, inject_Z. simpl. lia.
Qed.

Lemma overlap_count_le (xs ys : list string) :
  (overlap_count xs ys ≤ distinct_count xs)%nat.
Proof.
  unfold overlap_count, distinct_count. apply subseteq_size. set_solver.
Qed.

Lemma capability_coverage_in_unit agent task :
  (0 <= capability_coverage agent task <= 1)%Q.
Proof.
  unfold capability_coverage. case_bool_decide as Hn.
  - apply ratio_in_unit; [apply overlap_count_le|done].
  - split; [apply Qle_refl|discriminate].
Qed.

Lemma recency_bonus_range now agent : (0 <= recency_bonus now agent <= 10)%Q.
Proof.
  unfold recency_bonus. destruct (Qlt_bool _ _); split; discriminate.
Qed.

Lemma speed_bonus_range agent task : (0 <= speed_bonus agent task <= 10)%Q.
Proof.
  unfold speed_bonus.
  destruct (bool_decide _); simpl; [|split; discriminate].
  destruct (Qlt_bool 0 (average_completion_time agent)) eqn:Hpos;
    [|split; discriminate].
  apply Qlt_bool_iff in Hpos.
  assert (0 <= 300 / average_completion_time agent)%Q as Hq.
  { apply Qle_shift_div_l; [done|]. rewrite Qmult_0_l. discriminate. }
  destruct (Q.min_spec 1 (300 / average_completion_time agent))
    as [[? ->]|[? ->]]; lra.
Qed.

(** X3. For an agent whose success rate and load factor are in [0,1], the
    score is never negative and is at most 95 plus 15 for each
    specialization shared with the task: the five other terms are bounded by
    30, 20, 25, 10 and 10. *)
Theorem X3_score_bounds now agent task :
  (0 <= success_rate agent <= 1)%Q →
  (0 <= load_factor agent <= 1)%Q →
  (0 <= _calculate_agent_score now agent task)%Q
  ∧ (_calculate_agent_score now agent task
     <= 95 + Qof_nat (specialization_overlap agent task) * 15)%Q.
Proof.
  intros Hs Hl. rewrite calculate_agent_score_formula.
  unfold score_formula, score_without_specialization.
  pose proof (capability_coverage_in_unit agent task).
  pose proof (recency_bonus_range now agent).
  pose proof (speed_bonus_range agent task).
  pose proof (Qof_nat_nonneg (specialization_overlap agent task)).
  split; lra.
Qed.

Lemma X3_witness :
  (0 <= _calculate_agent_score 0 agent_A coding_task)%Q
  ∧ (_calculate_agent_score 0 agent_A coding_task
     <= 95 + Qof_nat (specialization_overlap agent_A coding_task) * 15)%Q.
Proof.
  apply X3_score_bounds; split; vm_compute; discriminate.
Defined.

(** ** The default catalog *)

Lemma coordination_master_available task :
  required_capabilities (context task) = [] →
  coordination_master ∈ default_agents
  ∧ is_available task coordination_master = true.
Proof.
  intros Hreq. split.
  - unfold default_agents. rewrite !elem_of_cons. do 7 right. by left.
  - unfold is_available, _agent_can_handle_task. rewrite Hreq. simpl.
    apply orb_true_r.
Qed.

(** X4. With the eight default agents as [_init_default_agents] creates
    them, every task that requires no capabilities gets an agent, whatever
    its type and priority; when its type is not in the compatibility table,
    that agent is the coordination master. *)
Theorem X4_default_agents_take_any_plain_task clock task :
  required_capabilities (context task) = [] →
  ∃ a,
    _select_best_agent clock default_agents task = Some a
    ∧ a ∈ default_agents
    ∧ (task_type_mapping !! task_type task = None →
       a = coordination_master).
Proof.
  intros Hreq.
  destruct (_select_best_agent clock default_agents task) as [a|] eqn:Hsel.
  - exists a. split; [done|].
    destruct (select_best_agent_available _ _ _ _ Hsel) as [Hin Hav].
    split; [done|]. intros Hnone.
    apply is_available_inv in Hav as (_ & _ & Hcan).
    apply (agent_can_handle_by_type _ _ Hreq) in Hcan.
    rewrite Hnone in Hcan. simpl in Hcan.
    destruct Hcan as [Hcan|Hcan]; [by apply elem_of_nil in Hcan|].
    unfold default_agents in Hin.
    repeat (apply elem_of_cons in Hin as [->|Hin]; [try done|]).
    by apply elem_of_nil in Hin.
  - exfalso. destruct (coordination_master_available task Hreq) as (Hin & Hav).
    rewrite select_best_agent_none in Hsel.
    rewrite (Hsel _ Hin) in Hav. done.
Qed.

Lemma X4_witness :
  ∃ a,
    _select_best_agent frozen_clock default_agents odd_task = Some a
    ∧ a = coordination_master.
Proof.
  destruct (X4_default_agents_take_any_plain_task frozen_clock odd_task eq_refl)
    as (a & Hsel & _ & Hid).
  exists a. split; [exact Hsel|]. apply Hid. vm_compute. reflexivity.
Defined.

(** ** Assignment and execution, step by step *)

Lemma execute_task_detail env agents h :
  ∃ (a1 : Agent) (r : Res unit),
    match start_up_error env with
    | Some e =>
        let d := (time_time env ClkEndFailed - time_time env ClkStart)%Q in
        _execute_task env agents h
        = (r, mkHeap
                (set_updated_at (time_time env ClkEndFailed)
                   (set_error_message (Some e)
                      (set_status FAILED
                         (set_actual_duration (Some d)
                            (set_status IN_PROGRESS (h_task h))))))
                (release a1)
                (status_history h ++ [IN_PROGRESS; FAILED]) (h_world h))
        ∧ performance_recorded false d
            (at_work (time_time env ClkStart) (h_agent h)) a1
    | None =>
        let d := (time_time env ClkEnd - time_time env ClkStart)%Q in
        ∃ res w',
          execution env agents h (h_world h) = (Ok res, w')
          ∧ _execute_task env agents h
            = (r, mkHeap
                    (set_updated_at (time_time env ClkEnd)
                       (set_result (Some res)
                          (set_status COMPLETED
                             (set_actual_duration (Some d)
                                (set_status IN_PROGRESS (h_task h))))))
                    (release a1)
                    (status_history h ++ [IN_PROGRESS; COMPLETED]) w')
          ∧ performance_recorded true d
              (at_work (time_time env ClkStart) (h_agent h)) a1
    end.
Proof.
  destruct h as [t a hist w].
  unfold start_up_error, _execute_task. se_unfold.
  destruct (db_error env DbStartTask) as [e1|] eqn:E1;
    [|destruct (db_error env DbStartAgent) as [e2|] eqn:E2].
  1,2: match goal with
       | |- context [_update_agent_performance ?ev false ?hh] =>
           destruct (update_agent_performance_spec ev false hh)
             as (a1 & -> & _ & Hrec);
           exists a1, (closing_saves ev);
           split; [|apply Hrec; reflexivity];
           unfold closing_saves; se_unfold; rewrite <- app_assoc;
           destruct (db_error ev DbFinalTask);
             [reflexivity|destruct (db_error ev DbFinalAgent); reflexivity]
       end.
  destruct (execution_total env agents (set_status IN_PROGRESS t)
              (at_work (time_time env ClkStart) a) w) as (res & w' & Hres).
  pose proof Hres as Hres'. unfold at_work in Hres'. rewrite Hres'. clear Hres'.
  match goal with
  | |- context [_update_agent_performance env true ?hh] =>
      destruct (update_agent_performance_spec env true hh)
        as (a1 & -> & _ & Hrec)
  end.
  exists a1, (closing_saves env), res, w'.
  rewrite task_requires_collaboration_set_status in Hres.
  split; [exact Hres|]. split; [|apply Hrec; reflexivity].
  unfold closing_saves. se_unfold. rewrite <- app_assoc.
  destruct (db_error env DbFinalTask);
    [reflexivity|destruct (db_error env DbFinalAgent); reflexivity].
Qed.

Lemma execute_task_agent env agents h :
  ∃ a1 success d,
    h_agent (_execute_task env agents h).2 = release a1
    ∧ performance_recorded success d
        (at_work (time_time env ClkStart) (h_agent h)) a1.
Proof.
  destruct (execute_task_detail env agents h) as (a1 & r & H).
  destruct (start_up_error env) as [e|].
  - destruct H as [-> Hrec]. by eexists a1, false, _.
  - destruct H as (res & w' & _ & -> & Hrec). by eexists a1, true, _.
Qed.

Lemma performance_recorded_skills success d a a1 :
  performance_recorded success d a a1 →
  capabilities a1 = capabilities a ∧ agent_type a1 = agent_type a.
Proof.
  intros [H _]. rewrite <- H. by destruct a1.
Qed.

Lemma agent_can_handle_task_skills a b task :
  capabilities a = capabilities b → agent_type a = agent_type b →
  _agent_can_handle_task a task = _agent_can_handle_task b task.
Proof.
  intros Hc Ht. unfold _agent_can_handle_task. by rewrite Hc, Ht.
Qed.

(** X5. An agent that was given a task is not available for any other task
    until the execution has cleaned up.  The cleanup leaves it idle, with no
    current task and with a load factor of at most 0.7, which is below the
    threshold of 0.8 whatever the load was before: after the execution the
    agent is available again for exactly the tasks it can handle. *)
Theorem X5_assign_then_execute (a : Agent)
    (env1 : Env) (task1 : Task) (hist1 : list TaskStatus) (w1 : World)
    (env2 : Env) (agents : list Agent) (task2 : Task) (hist2 : list TaskStatus)
    (w2 : World) :
  let a1 := apply_op a (OpAssign env1 task1 hist1 w1) in
  let a2 := apply_op a1 (OpExecute env2 agents task2 hist2 w2) in
  (∀ task, is_available task a1 = false)
  ∧ current_task a1 = Some (task_id task1)
  ∧ agent_status a2 = "idle"
  ∧ current_task a2 = None
  ∧ (load_factor a2 <= 0.7)%Q
  ∧ (∀ task, is_available task a2 = _agent_can_handle_task a task).
Proof.
  intros a1 a2.
  assert (a1 = take_on (task_id task1) a) as Ha1.
  { unfold a1. simpl. rewrite assign_task_to_agent_spec. reflexivity. }
  assert (load_factor a2 <= 0.7)%Q as Hload.
  { unfold a2, a1. rewrite !apply_op_load_factor.
    destruct (Q.min_spec 1 (load_factor a + 0.3)) as [[? E1]|[? E1]];
      destruct (Q.max_spec 0 (Qmin 1 (load_factor a + 0.3) - 0.3))
        as [[? E2]|[? E2]];
      rewrite E2; lra. }
  destruct (execute_task_agent env2 agents (mkHeap task2 a1 hist2 w2))
    as (a' & s & d & Ha2 & Hrec).
  change (h_agent (_execute_task env2 agents (mkHeap task2 a1 hist2 w2)).2)
    with a2 in Ha2.
  split; [|split; [|split; [|split; [|split]]]].
  - intros task. rewrite Ha1. reflexivity.
  - rewrite Ha1. reflexivity.
  - by rewrite Ha2.
  - by rewrite Ha2.
  - exact Hload.
  - intros task. unfold is_available.
    assert (Qlt_bool (load_factor a2) load_balance_threshold = true) as ->.
    { apply Qlt_bool_iff. unfold load_balance_threshold. lra. }
    apply performance_recorded_skills in Hrec as [Hc Ht].
    rewrite (agent_can_handle_task_skills a2 a task).
    + by rewrite Ha2.
    + rewrite Ha2. simpl. rewrite Hc, Ha1. reflexivity.
    + rewrite Ha2. simpl. rewrite Ht, Ha1. reflexivity.
Qed.

Lemma X5_witness :
  (∀ task,
     is_available task
       (apply_op agent_A (OpAssign refusing_env coding_task [PENDING] empty_world))
     = false)
  ∧ is_available coding_task
      (apply_op
         (apply_op agent_A (OpAssign refusing_env coding_task [PENDING] empty_world))
         (OpExecute refusing_env [] coding_task [PENDING; ASSIGNED] empty_world))
    = true.
Proof.
  destruct (X5_assign_then_execute agent_A refusing_env coding_task [PENDING]
              empty_world refusing_env [] coding_task [PENDING; ASSIGNED]
              empty_world) as (H1 & _ & _ & _ & _ & H2).
  split; [exact H1|]. rewrite H2. vm_compute. reflexivity.
Defined.

(** ** Dispatch *)

Lemma process_task_assignment_requeued env clock agents task hist w :
  _select_best_agent clock agents task = None →
  _process_task_assignment env clock agents task hist w = Requeued.
Proof.
  intros H. unfold _process_task_assignment. by rewrite H.
Qed.

(** X6. A task for which no agent is available at any of its dispatch
    attempts is put back on its queue every time: it stays pending, is never
    failed, and nothing is executed, however many attempts are made. *)
Theorem X6_unassignable_task_stays_queued env attempts task w :
  Forall (λ attempt,
            ∀ a, a ∈ agents_at_dispatch attempt → is_available task a = false)
    attempts →
  run_task env attempts task w = StillQueued
  ∧ observed_statuses task (run_task env attempts task w) = [status task].
Proof.
  intros H.
  assert (run_task env attempts task w = StillQueued) as Hq.
  { induction H as [|attempt later Hnone _ IH]; simpl; [done|].
    rewrite process_task_assignment_requeued; [done|].
    by apply select_best_agent_none. }
  by rewrite Hq.
Qed.

Lemma X6_witness :
  run_task refusing_env [busy_attempt; busy_attempt; busy_attempt] coding_task
    empty_world = StillQueued.
Proof.
  apply (X6_unassignable_task_stays_queued refusing_env
           [busy_attempt; busy_attempt; busy_attempt] coding_task empty_world).
  repeat constructor; intros a Ha; vm_compute in Ha;
    repeat (apply elem_of_cons in Ha as [->|Ha]; [reflexivity|]);
    by apply elem_of_nil in Ha.
Defined.

(** X7. Whatever the environment does, [_execute_task] ends with the agent
    idle, without current task and with one more task counted, and with the
    task in a terminal status with its duration measured: completed with a
    result and the error message untouched, or failed with an error message
    and the result untouched. *)
Theorem X7_execute_task_always_cleans_up env agents h :
  let final := (_execute_task env agents h).2 in
  agent_status (h_agent final) = "idle"
  ∧ current_task (h_agent final) = None
  ∧ agent_id (h_agent final) = agent_id (h_agent h)
  ∧ total_tasks_completed (h_agent final)
    = (total_tasks_completed (h_agent h) + 1)%Z
  ∧ task_id (h_task final) = task_id (h_task h)
  ∧ is_Some (actual_duration (h_task final))
  ∧ (status (h_task final) = COMPLETED
     ∧ is_Some (result (h_task final))
     ∧ error_message (h_task final) = error_message (h_task h)
     ∨ status (h_task final) = FAILED
       ∧ is_Some (error_message (h_task final))
       ∧ result (h_task final) = result (h_task h)).
Proof.
  intros final. subst final.
  destruct (execute_task_detail env agents h) as (a1 & r & H).
  destruct (start_up_error env) as [e|].
  - destruct H as [-> Hrec].
    apply performance_recorded_frame in Hrec as (_ & Ht & _ & _ & Hid).
    simpl. rewrite Ht, Hid. repeat split; eauto.
  - destruct H as (res & w' & _ & -> & Hrec).
    apply performance_recorded_frame in Hrec as (_ & Ht & _ & _ & Hid).
    simpl. rewrite Ht, Hid. repeat split; eauto.
Qed.

(** X8. When one of the two writes at the start of [_execute_task] raises,
    the execution capability is never called and no collaboration is
    created: the task ends failed with the message of that write as its
    error message, keeps its result, and the outcome is recorded as a
    failure in the agent's success rate. *)
Theorem X8_start_up_failure env agents h e :
  start_up_error env = Some e →
  (0 ≤ total_tasks_completed (h_agent h))%Z →
  let final := (_execute_task env agents h).2 in
  status (h_task final) = FAILED
  ∧ error_message (h_task final) = Some e
  ∧ result (h_task final) = result (h_task h)
  ∧ h_world final = h_world h
  ∧ status_history final = status_history h ++ [IN_PROGRESS; FAILED]
  ∧ (success_rate (h_agent final)
     == success_rate (h_agent h) * inject_Z (total_tasks_completed (h_agent h))
        / inject_Z (total_tasks_completed (h_agent h) + 1))%Q.
Proof.
  intros He Hn final. subst final.
  destruct (execute_task_detail env agents h) as (a1 & r & H).
  rewrite He in H. destruct H as [-> Hrec]. simpl.
  repeat split.
  assert (0 ≤ total_tasks_completed (at_work (time_time env ClkStart) (h_agent h)))%Z
    as Hn' by done.
  destruct (performance_recorded_statistics _ _ _ _ Hn' Hrec) as (H1 & _).
  rewrite H1. simpl. apply Qdiv_comp; [ring|reflexivity].
Qed.

Lemma X8_witness :
  let final := (_execute_task failing_start_env [] assigned_heap).2 in
  status (h_task final) = FAILED
  ∧ error_message (h_task final) = Some "disk I/O error"
  ∧ h_world final = empty_world.
Proof.
  destruct (X8_start_up_failure failing_start_env [] assigned_heap
              "disk I/O error" eq_refl) as (H1 & H2 & _ & H3 & _).
  { vm_compute. discriminate. }
  split; [exact H1|]. split; [exact H2|exact H3].
Defined.

(** X9. What one dispatch leaves behind.  The task is requeued exactly when
    no agent is available, and is then untouched.  When the two writes of the
    assignment go through, task and agent point at each other (assigned_agent
    is the agent's id, current_task the task's id) and both are marked
    assigned.  When one of them raises, the task is marked failed with that
    message, but the agent keeps the assignment: it stays marked assigned
    with the task as current task and the raised load factor, so it is
    available to no task, and no execution is started that would release
    it. *)
Theorem X9_dispatch_outcomes env clock agents task hist w :
  match _process_task_assignment env clock agents task hist w with
  | Requeued => _select_best_agent clock agents task = None
  | Launched h =>
      ∃ best,
        _select_best_agent clock agents task = Some best
        ∧ assignment_error env = None
        ∧ h_agent h = take_on (task_id task) best
        ∧ status (h_task h) = ASSIGNED
        ∧ assigned_agent (h_task h) = Some (agent_id (h_agent h))
        ∧ current_task (h_agent h) = Some (task_id (h_task h))
        ∧ agent_status (h_agent h) = "assigned"
        ∧ status_history h = hist ++ [ASSIGNED]
  | AssignmentFailed r h =>
      ∃ best e,
        _select_best_agent clock agents task = Some best
        ∧ assignment_error env = Some e
        ∧ h_agent h = take_on (task_id task) best
        ∧ status (h_task h) = FAILED
        ∧ error_message (h_task h) = Some e
        ∧ agent_status (h_agent h) = "assigned"
        ∧ current_task (h_agent h) = Some (task_id task)
        ∧ load_factor (h_agent h) = Qmin 1 (load_factor best + 0.3)
        ∧ (∀ t, is_available t (h_agent h) = false)
        ∧ status_history h = hist ++ [ASSIGNED; FAILED]
  end.
Proof.
  unfold _process_task_assignment, assignment_error.
  destruct (_select_best_agent clock agents task) as [best|]; [|done].
  rewrite assign_task_to_agent_spec.
  destruct (db_error env DbAssignTask) as [e|];
    [|destruct (db_error env DbAssignAgent) as [e|]];
    se_unfold; try destruct (db_error env DbAssignFailed);
    rewrite <- ?app_assoc;
    first [by exists best | by exists best, e].
Qed.

(** ** Statistics stay in range *)

Lemma updated_success_rate_in_unit a success :
  (0 ≤ total_tasks_completed a)%Z →
  (0 <= success_rate a <= 1)%Q →
  (0 <= updated_success_rate a success <= 1)%Q.
Proof.
  intros Hn [H0 H1]. rewrite updated_success_rate_formula.
  rewrite inject_Z_plus.
  assert (0 <= inject_Z (total_tasks_completed a))%Q as HN.
  { unfold Qle. simpl. lia. }
  set (N := inject_Z (total_tasks_completed a)) in *.
  set (s := success_rate a) in *.
  assert (0 <= s * N)%Q by (by apply Qmult_le_0_compat).
  assert (s * N <= N)%Q.
  { rewrite <- (Qmult_1_l N) at 2. by apply Qmult_le_compat_r. }
  assert (0 < N + inject_Z 1)%Q by (change (inject_Z 1) with 1%Q; lra).
  change (inject_Z 1) with 1%Q in *.
  split.
  - apply Qle_shift_div_l; [done|]. destruct success; lra.
  - apply Qle_shift_div_r; [done|]. destruct success; lra.
Qed.

(** X10. An agent whose success rate is in [0,1] and whose task count is not
    negative still has a success rate in [0,1] after [_execute_task], whatever
    the outcome and the environment. *)
Theorem X10_success_rate_stays_in_unit env agents h :
  (0 ≤ total_tasks_completed (h_agent h))%Z →
  (0 <= success_rate (h_agent h) <= 1)%Q →
  (0 <= success_rate (h_agent (_execute_task env agents h).2) <= 1)%Q.
Proof.
  intros Hn Hs.
  destruct (execute_task_agent env agents h) as (a1 & success & d & -> & Hrec).
  destruct Hrec as [_ Hrec]. destruct Hrec as [Hrate _]; [simpl; lia|].
  simpl. rewrite Hrate.
  by apply updated_success_rate_in_unit.
Qed.

Lemma X10_witness :
  (0 <= success_rate (h_agent (_execute_task refusing_env [] assigned_heap).2)
   <= 1)%Q.
Proof.
  apply X10_success_rate_stays_in_unit.
  - vm_compute. discriminate.
  - split; vm_compute; discriminate.
Defined.

(** X11. [_update_agent_performance] never raises and touches nothing but
    the two statistics of the agent: the task, the world, the status history
    and every other field of the agent are as before.  Its outcome does not
    depend on the database, so a metrics write that fails undoes nothing;
    and with a task count of -1, where the division raises, the agent is
    left as it was. *)
Theorem X11_performance_update_is_contained env success h :
  ∃ a1,
    _update_agent_performance env success h
    = (Ok tt, mkHeap (h_task h) a1 (status_history h) (h_world h))
    ∧ set_success_rate (success_rate (h_agent h))
        (set_average_completion_time (average_completion_time (h_agent h)) a1)
      = h_agent h
    ∧ (total_tasks_completed (h_agent h) = (-1)%Z → a1 = h_agent h)
    ∧ ∀ env', _update_agent_performance env' success h
              = _update_agent_performance env success h.
Proof.
  destruct h as [t a hist w]. unfold _update_agent_performance. se_unfold.
  destruct (total_tasks_completed a + 1 =? 0)%Z eqn:Hz.
  - exists a. split; [reflexivity|]. split; [by destruct a|]. by split.
  - apply Z.eqb_neq in Hz.
    destruct (actual_duration t) as [d|]; simpl;
      [destruct (Qeq_bool d 0); simpl;
       [|destruct (Qeq_bool (average_completion_time a) 0); simpl]|];
      (eexists; split; [destruct (db_error env DbMetric); reflexivity|];
       split; [by destruct a|]; split; [intros Hn; simpl in Hn; lia|];
       intros env'; destruct (db_error env DbMetric), (db_error env' DbMetric);
       reflexivity).
Qed.

(** ** Collaborators and roles *)

Lemma collect_collaborators_spec primary required agents additional
    (missing : gset string) :
  (∀ c, c ∈ missing → c ∈ required ∧ c ∉ capabilities primary) →
  ∃ extra,
    collect_collaborators primary agents additional missing = additional ++ extra
    ∧ extra `sublist_of` agents
    ∧ Forall (fills_a_gap primary required) extra
    ∧ ((length additional ≤ 4)%nat → (length (additional ++ extra) ≤ 4)%nat).
Proof.
  revert additional missing.
  induction agents as [|agent rest IH]; intros additional missing Hm; simpl.
  - exists []. rewrite app_nil_r. repeat split; [constructor|constructor|done].
  - destruct (bool_decide (agent_id agent ≠ agent_id primary)) eqn:Hid; simpl;
      [destruct (bool_decide (agent_status agent = "idle")) eqn:Hidle; simpl;
       [destruct (Qlt_bool (load_factor agent) load_balance_threshold) eqn:Hload;
        simpl;
        [match goal with
         | |- context [bool_decide (length additional < ?n)%nat] =>
             destruct (bool_decide (length additional < n)%nat) eqn:Hlen; simpl
         end|]|]|];
      try solve
        [destruct (IH additional missing Hm) as (extra & -> & Hsub & Hall & Hl);
         exists extra; repeat split; [by apply sublist_cons|done|done]].
    apply bool_decide_eq_true in Hid, Hidle, Hlen.
    apply Qlt_bool_iff in Hload.
    case_bool_decide as Hcap.
    + apply set_choose_L in Hcap as [c Hc].
      apply elem_of_intersection in Hc as [Hc1 Hc2].
      apply elem_of_list_to_set in Hc1.
      assert (fills_a_gap primary required agent) as Hfill.
      { repeat split; try done. exists c. destruct (Hm c Hc2). done. }
      case_bool_decide as Hdone.
      * exists [agent]. repeat split.
        -- apply sublist_skip, sublist_nil_l.
        -- by constructor.
        -- intros _. rewrite length_app. simpl. lia.
      * destruct (IH (additional ++ [agent])
                    (missing ∖ list_to_set (capabilities agent)))
          as (extra & -> & Hsub & Hall & Hl).
        { intros c' Hc'. apply Hm. set_solver. }
        exists (agent :: extra). rewrite <- app_assoc. repeat split.
        -- by apply sublist_skip.
        -- by constructor.
        -- intros _.
           replace (additional ++ agent :: extra)
             with ((additional ++ [agent]) ++ extra)
             by (by rewrite <- app_assoc).
           apply Hl. rewrite length_app. simpl. lia.
    + destruct (IH additional missing Hm) as (extra & -> & Hsub & Hall & Hl).
      exists extra. repeat split; [by apply sublist_cons|done|done].
Qed.

Lemma select_collaboration_agents_spec agents task primary :
  let additional := _select_collaboration_agents agents task primary in
  additional `sublist_of` agents
  ∧ (length additional ≤ 4)%nat
  ∧ Forall (fills_a_gap primary (required_capabilities (context task))) additional.
Proof.
  unfold _select_collaboration_agents. case_bool_decide as Hm.
  - destruct (collect_collaborators_spec primary
                (required_capabilities (context task)) agents []
                (list_to_set (required_capabilities (context task))
                 ∖ list_to_set (capabilities primary)))
      as (extra & -> & Hsub & Hall & Hl).
    { intros c Hc. set_solver. }
    simpl. repeat split; [done| |done]. apply Hl. simpl. lia.
  - simpl. repeat split; [apply sublist_nil_l|lia|constructor].
Qed.

(** X12. The agents [_select_collaboration_agents] adds to a collaboration
    are taken from the registry in its order, are at most four, and each of
    them is another agent than the primary one, idle, below the load
    threshold, and holds a capability the task requires and the primary
    agent lacks.  When the primary agent holds every required capability,
    nobody is added. *)
Theorem X12_collaborators agents task primary :
  let additional := _select_collaboration_agents agents task primary in
  let required := required_capabilities (context task) in
  additional `sublist_of` agents
  ∧ (length additional ≤ 4)%nat
  ∧ (∀ b, b ∈ additional →
       agent_id b ≠ agent_id primary
       ∧ agent_status b = "idle"
       ∧ (load_factor b < 0.8)%Q
       ∧ ∃ c, c ∈ capabilities b ∧ c ∈ required ∧ c ∉ capabilities primary)
  ∧ ((∀ c, c ∈ required → c ∈ capabilities primary) → additional = []).
Proof.
  intros additional required.
  destruct (select_collaboration_agents_spec agents task primary)
    as (Hsub & Hlen & Hall).
  split; [exact Hsub|]. split; [exact Hlen|]. split.
  - intros b Hb. rewrite Forall_forall in Hall. exact (Hall b Hb).
  - intros Hcov. unfold additional, _select_collaboration_agents.
    rewrite bool_decide_eq_false_2; [done|].
    intros Hne. apply Hne. set_solver.
Qed.

Lemma roles_untouched (others : list Agent) (roles : gmap string string) k :
  k ∉ agent_id <$> others →
  foldl (λ roles agent, <[agent_id agent := role_of (agent_type agent)]> roles)
    roles others !! k = roles !! k.
Proof.
  revert roles. induction others as [|a others IH]; intros roles Hk; simpl; [done|].
  rewrite fmap_cons, not_elem_of_cons in Hk. destruct Hk as [Hne Hk].
  rewrite IH by done. by rewrite lookup_insert_ne.
Qed.

Lemma roles_of_distinct (others : list Agent) (roles : gmap string string) b :
  NoDup (agent_id <$> others) →
  b ∈ others →
  foldl (λ roles agent, <[agent_id agent := role_of (agent_type agent)]> roles)
    roles others !! agent_id b = Some (role_of (agent_type b)).
Proof.
  revert roles. induction others as [|a others IH]; intros roles Hnd Hb; simpl.
  - by apply elem_of_nil in Hb.
  - rewrite fmap_cons in Hnd. apply NoDup_cons in Hnd as [Hna Hnd].
    apply elem_of_cons in Hb as [->|Hb].
    + rewrite roles_untouched by done. by rewrite lookup_insert_eq.
    + by apply IH.
Qed.

(** X13. [_assign_collaboration_roles] raises on an empty list.  On the
    agents of a collaboration (the primary agent followed by the agents
    [_select_collaboration_agents] added from a registry with distinct ids)
    the primary agent is the coordinator and every added agent has the role
    of its type, a coordination agent getting "specialist". *)
Theorem X13_collaboration_roles agents task primary (w : World) :
  NoDup (agent_id <$> agents) →
  let additional := _select_collaboration_agents agents task primary in
  _assign_collaboration_roles (S := World) [] w = (Exc "list index out of range", w)
  ∧ ∃ roles,
      _assign_collaboration_roles (primary :: additional) w = (Ok roles, w)
      ∧ roles !! agent_id primary = Some "coordinator"
      ∧ ∀ b, b ∈ additional →
             roles !! agent_id b = Some (role_of (agent_type b)).
Proof.
  intros Hnd additional. split; [reflexivity|].
  destruct (select_collaboration_agents_spec agents task primary)
    as (Hsub & _ & Hall).
  fold additional in Hsub, Hall. rewrite Forall_forall in Hall.
  eexists. split; [reflexivity|]. split.
  - rewrite roles_untouched; [by rewrite lookup_insert_eq|].
    intros Hin. apply list_elem_of_fmap in Hin as (b & Hid & Hb).
    destruct (Hall b Hb) as [Hne _]. by rewrite Hid in Hne.
  - intros b Hb. apply roles_of_distinct; [|done].
    apply (sublist_NoDup _ (agent_id <$> agents)); [exact Hnd|].
    by apply fmap_sublist.
Qed.

Lemma X13_witness :
  ∃ roles,
    _assign_collaboration_roles
      (coordinator :: _select_collaboration_agents [coordinator; agent_A]
                        release_task coordinator) empty_world
    = (Ok roles, empty_world)
    ∧ roles !! "coordination_master" = Some "coordinator"
    ∧ roles !! "A" = Some "developer".
Proof.
  destruct (X13_collaboration_roles [coordinator; agent_A] release_task
              coordinator empty_world) as (_ & roles & H1 & H2 & H3).
  { vm_compute. repeat constructor; set_solver. }
  exists roles. split; [exact H1|]. split; [exact H2|].
  apply (H3 agent_A). vm_compute. set_solver.
Defined.

(** ** Parsing the decomposition *)

Lemma parse_lines_without_marker (lines : list string) :
  Forall (λ line, starts_with_marker (strip line) = false) lines →
  foldl parse_line ([], None) lines = ([], None).
Proof.
  induction 1 as [|line lines Hline _ IH]; [done|].
  change (foldl parse_line ([], None) (line :: lines))
    with (foldl parse_line (parse_line ([], None) line) lines).
  assert (parse_line ([], None) line = ([], None)) as ->; [|exact IH].
  unfold parse_line. by rewrite Hline.
Qed.

(** X14. [_parse_subtasks] always returns exactly one subtask per agent it
    is given, whatever the text: missing subtasks are filled with support
    tasks and surplus ones are dropped.  When no line of the text starts
    (after stripping blanks) with a bullet or a number from 1 to 5, every
    agent gets the support task made from its name. *)
Theorem X14_one_subtask_per_agent text (agents : list Agent) :
  length (_parse_subtasks text agents) = length agents
  ∧ (Forall (λ line, starts_with_marker (strip line) = false) (split_lines text) →
     _parse_subtasks text agents = support_subtask <$> agents).
Proof.
  split; [apply parse_subtasks_length|].
  intros H. unfold _parse_subtasks.
  rewrite (parse_lines_without_marker _ H). simpl.
  rewrite <- (length_fmap support_subtask). apply firstn_all.
Qed.

Lemma X14_witness :
  _parse_subtasks "Nothing to decompose here" [agent_A; agent_B]
  = [support_subtask agent_A; support_subtask agent_B].
Proof.
  apply (proj2 (X14_one_subtask_per_agent "Nothing to decompose here"
                  [agent_A; agent_B])).
  vm_compute. repeat constructor.
Defined.

Lemma without_prefix_length p s s' :
  without_prefix p s = Some s' →
  String.length s = (String.length p + String.length s')%nat.
Proof.
  revert s. induction p as [|a p IH]; intros s; simpl.
  - by intros [= ->].
  - destruct s as [|b s]; [done|]. destruct (Ascii.eqb a b); [|done].
    intros H. simpl. by rewrite (IH s H).
Qed.

Lemma without_prefix_none p s :
  without_prefix p s = None → startswith p s = false.
Proof.
  revert s. induction p as [|a p IH]; intros s; simpl; [done|].
  destruct s as [|b s]; [done|]. destruct (Ascii.eqb a b); [|done].
  apply IH.
Qed.

Lemma without_first_shorter chars s s' :
  Forall (λ c, c ≠ "") chars →
  without_first chars s = Some s' →
  (String.length s' < String.length s)%nat.
Proof.
  induction 1 as [|c chars Hc _ IH]; simpl; [done|].
  destruct (without_prefix c s) as [r|] eqn:E; [|exact IH].
  intros [= ->]. apply without_prefix_length in E.
  destruct c; [done|]. simpl in E. lia.
Qed.

Lemma without_first_none chars s :
  without_first chars s = None → ∀ c, c ∈ chars → startswith c s = false.
Proof.
  induction chars as [|c chars IH]; simpl; intros H x Hx.
  - by apply elem_of_nil in Hx.
  - destruct (without_prefix c s) eqn:E; [done|].
    apply elem_of_cons in Hx as [->|Hx]; [by apply without_prefix_none|].
    by apply IH.
Qed.

Lemma lstrip_loop_done fuel chars s :
  Forall (λ c, c ≠ "") chars →
  (String.length s ≤ fuel)%nat →
  without_first chars (lstrip_loop fuel chars s) = None.
Proof.
  intros Hchars. revert s. induction fuel as [|fuel IH]; intros s Hs; simpl.
  - destruct s; [|simpl in Hs; lia].
    destruct (without_first chars "") eqn:E; [|done].
    apply without_first_shorter in E; [simpl in E; lia|done].
  - destruct (without_first chars s) as [s'|] eqn:E; [|exact E].
    apply IH. apply without_first_shorter in E; [lia|done].
Qed.

Lemma lstrip_clean s : clean_description (lstrip marker_characters s).
Proof.
  unfold clean_description, lstrip. apply without_first_none.
  apply lstrip_loop_done; [|done].
  unfold marker_characters, bullet. by repeat constructor.
Qed.

Lemma parse_line_clean st raw :
  Forall (λ sub, clean_description (sub_description sub)) st.1 →
  (∀ cur, st.2 = Some cur → clean_description (sub_description cur)) →
  Forall (λ sub, clean_description (sub_description sub)) (parse_line st raw).1
  ∧ (∀ cur, (parse_line st raw).2 = Some cur →
            clean_description (sub_description cur)).
Proof.
  destruct st as [subs current]. simpl. intros Hsubs Hcur.
  unfold parse_line.
  destruct (starts_with_marker (strip raw)).
  - split.
    + destruct current as [cur|]; [|done].
      apply Forall_app. split; [done|]. constructor; [by apply Hcur|constructor].
    + intros cur [= <-]. apply lstrip_clean.
  - destruct current as [cur|]; [|by split].
    case_bool_decide; [|by split].
    split; [done|]. intros cur' [= <-]. simpl. by apply Hcur.
Qed.

Lemma parse_lines_clean lines st :
  Forall (λ sub, clean_description (sub_description sub)) st.1 →
  (∀ cur, st.2 = Some cur → clean_description (sub_description cur)) →
  Forall (λ sub, clean_description (sub_description sub))
    (foldl parse_line st lines).1
  ∧ (∀ cur, (foldl parse_line st lines).2 = Some cur →
            clean_description (sub_description cur)).
Proof.
  revert st. induction lines as [|raw lines IH]; intros st H1 H2; [done|].
  change (foldl parse_line st (raw :: lines))
    with (foldl parse_line (parse_line st raw) lines).
  destruct (parse_line_clean st raw H1 H2). by apply IH.
Qed.

(** X15. No description returned by [_parse_subtasks] begins with a list
    marker: the leading dashes, stars, bullets, digits, dots and blanks of a
    parsed line are all removed, and the support tasks begin with a
    letter. *)
Theorem X15_descriptions_are_stripped text (agents : list Agent) :
  Forall (λ sub, clean_description (sub_description sub))
    (_parse_subtasks text agents).
Proof.
  unfold _parse_subtasks.
  destruct (parse_lines_clean (split_lines text) ([], None)) as [H1 H2];
    [constructor|done|].
  destruct (foldl parse_line ([], None) (split_lines text)) as [subs current].
  simpl in *. apply Forall_take, Forall_app. split.
  - destruct current as [cur|]; [|done].
    apply Forall_app. split; [done|]. constructor; [by apply H2|constructor].
  - apply Forall_fmap, Forall_forall. intros a _ c Hc.
    unfold marker_characters in Hc. rewrite !elem_of_cons, elem_of_nil in Hc.
    repeat (destruct Hc as [->|Hc]; [reflexivity|]). done.
Qed.

(** ** The collaboration record *)

(** X16. [_execute_collaborative_task] never raises, in any environment.
    It registers under the drawn id a record that names the primary agent,
    the participants (the primary agent first, then the agents added) and
    the task, and leaves every other record alone.  The record stays active
    and without completion time: the first write of it raises before the
    database is reached, no request is sent, and the dict returned carries
    the message of that exception. *)
Theorem X16_collaboration_record env agents task primary w :
  ∃ res w' c,
    _execute_collaborative_task env agents task primary w = (Ok res, w')
    ∧ collaborations w' !! collaboration_uuid env = Some c
    ∧ (∀ k, k ≠ collaboration_uuid env →
            collaborations w' !! k = collaborations w !! k)
    ∧ collab_status c = "active"
    ∧ completed_at c = None
    ∧ communication_log c = []
    ∧ primary_agent c = agent_id primary
    ∧ participating_agents c
      = agent_id primary
        :: (agent_id <$> _select_collaboration_agents agents task primary)
    ∧ collab_task_id c = task_id task
    ∧ requests w' = requests w
    ∧ res = mkResultDict (Some false) None
              (Some "Object of type TaskPriority is not JSON serializable")
              None (Some "collaborative") None None None.
Proof.
  destruct (execute_collaborative_task_spec env agents task primary w)
    as (roles & _ & Heq).
  eexists _, _, _. split; [exact Heq|]. simpl.
  split; [by rewrite lookup_insert_eq|].
  split; [intros k Hk; by rewrite lookup_insert_ne|].
  by repeat split.
Qed.

(** ** The requests of a collaboration *)





(** ** Single-agent execution *)

(** X18. Single-agent execution never raises and never touches the
    collaborations.  Without a backend it sends nothing and answers the
    error dict without a [success] key.  With a backend it sends exactly
    one request, carrying the task's description and the agent's first
    preferred model (or [local]), and the dict names the agent; the dict
    says success exactly when the reply says success and carries a result,
    and a reply that says success without a result gives a failure whose
    error is the missing key. *)
Theorem X18_single_agent_execution env task agent w :
  ∃ res w',
    _execute_single_agent_task env task agent w = (Ok res, w')
    ∧ collaborations w' = collaborations w
    ∧ match duckbot_ai env with
      | None =>
          w' = w
          ∧ res = mkResultDict None None (Some "DuckBot AI not available")
                    None None None None None
      | Some ai =>
          (∃ ctx,
             requests w'
             = requests w ++ [(AiSingle,
                               mkRequest (description task) ctx (first_model agent))])
          ∧ rd_agent_id res = Some (agent_id agent)
          ∧ (rd_success res = Some true
             ↔ ∃ r p, ai AiSingle = Returns r ∧ resp_success r = true
                      ∧ resp_result r = Some p
                      ∧ rd_result res = Some (RVPayload p))
          ∧ (∀ r, ai AiSingle = Returns r → resp_success r = true →
                  resp_result r = None →
                  rd_success res = Some false ∧ rd_error res = Some "'result'")
      end.
Proof.
  unfold _execute_single_agent_task.
  destruct (duckbot_ai env) as [ai|] eqn:Hai.
  - unfold try_except, bind. rewrite (enhanced_request_spec env ai) by done.
    destruct (ai AiSingle) as [r|msg] eqn:Hr; cbv beta iota.
    + destruct (resp_success r) eqn:Hs; [destruct (resp_result r) as [p|] eqn:Hp|];
        cbv beta iota; unfold ret, raise;
        (eexists _, _; split; [reflexivity|]; split; [reflexivity|];
         split; [by eexists|]; split; [reflexivity|]; simpl; split;
         [split;
          [first [discriminate | intros _; exists r; eexists; by repeat split]
          |intros (r' & p' & [= <-] & Hs' & Hp' & Hres);
           first [reflexivity | congruence]]
         |intros r' [= <-] Hs' Hp'; first [congruence | by split]]).
    + eexists _, _. split; [reflexivity|]. split; [reflexivity|].
      split; [by eexists|]. split; [reflexivity|]. split.
      * split; [discriminate|]. intros (r' & p' & [=] & _).
      * intros r' [=].
  - eexists _, _. split; [reflexivity|]. by repeat split.
Qed.

(** ** Submission and the two status methods *)

(** X19. A task accepted by [SubmitTask] is at once visible through
    [GetTaskStatus] under the returned id: pending, no agent, progress 0, no
    result; the status of every other id is as before.  A refused
    submission changes the status of no id. *)
Theorem X19_submitted_task_status (json_loads : string → option Context)
    (u : UUID) (created updated : Q) (title description task_type : string)
    (n : Z) (context : string) (s : Store) (now : Q) :
  let r := SubmitTask json_loads u created updated title description task_type
             n context s in
  ((1 ≤ n ≤ 5)%Z →
   context = "" ∨ is_Some (json_loads context) →
   GetTaskStatus now (tasks r.2) r.1
   = ReplyStatus (uuid_text u) PENDING None 0 None
   ∧ ∀ id, id ≠ r.1 →
           GetTaskStatus now (tasks r.2) id = GetTaskStatus now (tasks s) id)
  ∧ (¬ (1 ≤ n ≤ 5)%Z ∨ (context ≠ "" ∧ json_loads context = None) →
     ∀ id, GetTaskStatus now (tasks r.2) id = GetTaskStatus now (tasks s) id).
Proof.
  intros r. subst r. unfold SubmitTask, submit_body. split.
  - intros Hp Hc.
    destruct (TaskPriority_of_value_valid _ Hp) as (p & -> & Hv).
    assert (∃ ctx, (if bool_decide (context ≠ "") then json_loads context
                    else Some empty_context) = Some ctx) as [ctx ->].
    { case_bool_decide as Hne; [|by eexists].
      destruct Hc as [?|[ctx Hctx]]; [done|by exists ctx]. }
    cbn [fst snd tasks]. unfold GetTaskStatus. split.
    + by rewrite lookup_insert_eq.
    + intros id Hid. by rewrite lookup_insert_ne.
  - intros [Hp|[Hne Hnone]] id.
    + by rewrite (TaskPriority_of_value_invalid _ Hp).
    + destruct (TaskPriority_of_value n); [|done].
      by rewrite (bool_decide_eq_true_2 _ Hne), Hnone.
Qed.

Lemma X19_witness :
  GetTaskStatus 99
    (tasks (SubmitTask sample_json_loads sample_uuid 10 10 "Parser"
              "Write a parser" "development" 3 "{}" empty_store).2)
    (SubmitTask sample_json_loads sample_uuid 10 10 "Parser"
       "Write a parser" "development" 3 "{}" empty_store).1
  = ReplyStatus (uuid_text sample_uuid) PENDING None 0 None.
Proof.
  apply (proj1 (X19_submitted_task_status sample_json_loads sample_uuid 10 10
                  "Parser" "Write a parser" "development" 3 "{}" empty_store 99)).
  - lia.
  - right. by eexists.
Defined.

Lemma progress_monotone (now later created est : Q) :
  (0 < est)%Q → (now <= later)%Q →
  (Qmin 90 ((now - created) / est * 100)
   <= Qmin 90 ((later - created) / est * 100))%Q.
Proof.
  intros Hest Hle. apply Q.min_le_compat_l.
  apply Qmult_le_compat_r; [|done].
  unfold Qdiv. apply Qmult_le_compat_r; [lra|].
  apply Qlt_le_weak, Qinv_lt_0_compat, Hest.
Qed.

Lemma progress_nonneg (now created est : Q) :
  (0 < est)%Q → (created <= now)%Q →
  (0 <= Qmin 90 ((now - created) / est * 100))%Q.
Proof.
  intros Hest Hle. apply Q.min_glb; [done|].
  apply Qmult_le_0_compat; [|done].
  apply Qle_shift_div_l; [done|lra].
Qed.

(** X20. The progress [_calculate_task_progress] reports never exceeds 100,
    and never exceeds 90 for a task that is not completed; it is not
    negative when the clock is not before the creation time; and for a task
    whose record does not change it does not decrease as time passes. *)
Theorem X20_progress_bounds (now : Q) (task : Task) :
  (_calculate_task_progress now task <= 100)%Q
  ∧ (status task ≠ COMPLETED → _calculate_task_progress now task <= 90)%Q
  ∧ ((created_at task <= now)%Q → 0 <= _calculate_task_progress now task)%Q
  ∧ (∀ later, (now <= later)%Q →
       _calculate_task_progress now task <= _calculate_task_progress later task)%Q.
Proof.
  unfold _calculate_task_progress.
  destruct (status task) eqn:Hs;
    try (repeat split; intros; first [done | apply Qle_refl]).
  destruct (Qlt_bool 0 (estimated_duration task)) eqn:Hest.
  - apply Qlt_bool_iff in Hest.
    pose proof (Q.le_min_l 90 ((now - created_at task)
                               / estimated_duration task * 100)) as Hmin.
    repeat split.
    + eapply Qle_trans; [exact Hmin|done].
    + intros _. exact Hmin.
    + intros Hle. by apply progress_nonneg.
    + intros later Hle. by apply progress_monotone.
  - repeat split; intros; first [done | apply Qle_refl].
Qed.

Lemma X20_witness :
  (0 <= _calculate_task_progress 40 started_task)%Q
  ∧ (_calculate_task_progress 40 started_task <= 90)%Q.
Proof.
  split.
  - apply (proj1 (proj2 (proj2 (X20_progress_bounds 40 started_task)))).
    vm_compute. discriminate.
  - apply (proj1 (proj2 (X20_progress_bounds 40 started_task))).
    discriminate.
Defined.

Lemma sum_load_bounds (agents : list Agent) (acc : Q) :
  (∀ a, a ∈ agents → 0 <= load_factor a <= 1)%Q →
  (acc <= foldl (λ acc a, acc + load_factor a) acc agents
   <= acc + Qof_nat (length agents))%Q.
Proof.
  revert acc. induction agents as [|a agents IH]; intros acc H.
  - cbn [foldl length]. change (Qof_nat 0) with 0%Q. lra.
  - destruct (H a) as [H0 H1]; [by left|].
    destruct (IH (acc + load_factor a)%Q) as [IH0 IH1].
    { intros b Hb. apply H. by right. }
    simpl foldl. split; [lra|].
    assert (Qof_nat (length (a :: agents)) == Qof_nat (length agents) + 1)%Q
      as ->.
    { unfold Qof_nat. simpl length. rewrite Nat2Z.inj_succ, <- Z.add_1_r.
      by rewrite inject_Z_plus. }
    lra.
Qed.

Lemma filter_length_pair {A} (P R : A → Prop) `{∀ x, Decision (P x)}
    `{∀ x, Decision (R x)} (l : list A) :
  (∀ x, P x → R x → False) →
  (length (filter P l) + length (filter R l) ≤ length l)%nat.
Proof.
  intros Hdisj. induction l as [|x l IH]; [done|].
  rewrite !filter_cons.
  destruct (decide (P x)), (decide (R x)); simpl; try lia.
  exfalso. eauto.
Qed.

(** X21. What [GetSystemStatus] reports: the active agents are at most the
    registered ones, and the pending and in-progress tasks together at most
    the stored ones; with an empty registry the load is 0 (no division by
    zero); and when every agent's load factor lies in [0, 1], so does the
    system load. *)
Theorem X21_system_status (agents : list Agent) (store : gmap string Task)
    (collabs : gmap string Collaboration) :
  let st := GetSystemStatus agents store collabs in
  (active_agents st ≤ total_agents st)%nat
  ∧ (pending_tasks st + active_tasks st ≤ size store)%nat
  ∧ (active_collaborations st ≤ size collabs)%nat
  ∧ (agents = [] → system_load st = 0%Q)
  ∧ ((∀ a, a ∈ agents → 0 <= load_factor a <= 1)%Q →
     (0 <= system_load st <= 1)%Q).
Proof.
  unfold GetSystemStatus. cbn [active_agents total_agents pending_tasks
    active_tasks active_collaborations system_load].
  split; [apply length_filter|].
  split.
  { etransitivity; [apply filter_length_pair; congruence|].
    by rewrite length_fmap, length_map_to_list. }
  split.
  { etransitivity; [apply length_filter|].
    by rewrite length_fmap, length_map_to_list. }
  split; [by intros ->|].
  intros Hload. case_bool_decide as Hne; [|done].
  destruct (sum_load_bounds agents 0 Hload) as [H0 H1].
  fold (sum_load agents) in H0, H1.
  assert (0 < Qof_nat (length agents))%Q as Hpos.
  { destruct agents; [done|]. unfold Qof_nat, Qlt. simpl. lia. }
  split.
  - apply Qle_shift_div_l; [done|lra].
  - apply Qle_shift_div_r; [done|lra].
Qed.

Lemma X21_witness :
  (0 <= system_load (GetSystemStatus half_busy ∅ ∅) <= 1)%Q.
Proof.
  apply (proj2 (proj2 (proj2 (proj2 (X21_system_status half_busy ∅ ∅))))).
  intros a Ha. unfold half_busy in Ha.
  rewrite !elem_of_cons, elem_of_nil in Ha.
  destruct Ha as [->|[->|[]]]; vm_compute; split; discriminate.
Defined.

(** X22. Submission seen through [GetSystemStatus]: a task accepted under
    an id the store does not hold yet raises the pending count by one and
    leaves every other figure as it was. *)
Theorem X22_submission_is_counted (json_loads : string → option Context)
    (u : UUID) (created updated : Q) (title description task_type : string)
    (n : Z) (context : string) (s : Store) (agents : list Agent)
    (collabs : gmap string Collaboration) :
  (1 ≤ n ≤ 5)%Z →
  context = "" ∨ is_Some (json_loads context) →
  tasks s !! uuid_text u = None →
  let s' := (SubmitTask json_loads u created updated title description
               task_type n context s).2 in
  let before := GetSystemStatus agents (tasks s) collabs in
  let after := GetSystemStatus agents (tasks s') collabs in
  pending_tasks after = S (pending_tasks before)
  ∧ active_tasks after = active_tasks before
  ∧ total_agents after = total_agents before
  ∧ active_agents after = active_agents before
  ∧ active_collaborations after = active_collaborations before
  ∧ system_load after = system_load before.
Proof.
  intros Hp Hc Hfresh. unfold SubmitTask, submit_body.
  destruct (TaskPriority_of_value_valid _ Hp) as (p & -> & Hv).
  assert (∃ ctx, (if bool_decide (context ≠ "") then json_loads context
                  else Some empty_context) = Some ctx) as [ctx ->].
  { case_bool_decide as Hne; [|by eexists].
    destruct Hc as [?|[ctx Hctx]]; [done|by exists ctx]. }
  cbn [snd tasks]. unfold GetSystemStatus.
  cbn [active_agents total_agents pending_tasks active_tasks
       active_collaborations system_load].
  split; [|split; [|done]].
  - rewrite (map_to_list_insert _ _ _ Hfresh). rewrite fmap_cons.
    rewrite filter_cons_True by done. reflexivity.
  - rewrite (map_to_list_insert _ _ _ Hfresh). rewrite fmap_cons.
    rewrite filter_cons_False by done. reflexivity.
Qed.

Lemma X22_witness :
  pending_tasks
    (GetSystemStatus [agent_A]
       (tasks (SubmitTask sample_json_loads sample_uuid 10 10 "Parser"
                 "Write a parser" "development" 3 "{}" empty_store).2) ∅)
  = S (pending_tasks (GetSystemStatus [agent_A] (tasks empty_store) ∅)).
Proof.
  refine (proj1 (X22_submission_is_counted sample_json_loads sample_uuid 10 10
                   "Parser" "Write a parser" "development" 3 "{}" empty_store
                   [agent_A] ∅ _ _ _)).
  - lia.
  - right. by eexists.
  - reflexivity.
Defined.
